(** * The persistent-volume codec of [types/persistentvolume.go]

    A shallow embedding of the flat wire codec for persistent volumes: the
    compact access-mode list ([AccessModes.ToString], [InitFromString]), the
    tag-dispatched volume source ([PersistentVolumeSource]) and the
    merge/split codec of [PersistentVolume].

    Conventions.
    - A Go [string] is a [string] (a sequence of bytes).
    - A [[]byte] holding JSON text is modelled by the document it denotes,
      a [json] value whose objects are finite maps: key order is gone and a
      repeated key is already resolved.  The same type models the values of a
      [map[string]interface{}] produced by the generic decoder.
    - A Go function returning [(T, error)] returns a [result]; a method that
      mutates its pointer receiver and returns [error] takes the receiver's
      state and returns the new state with an [option error]. *)

From Stdlib Require Import Ascii String.
From stdpp Require Import gmap strings list fin_maps.

Local Set Warnings "-register-all".

(** ** Go's [strings] package *)

Module strings.

(** [strings.Split(s, sep)] for a one-byte separator, which is what both
    call sites pass ([","] and [":"]).  The result is never empty: the
    empty string splits into one empty token. *)
Fixpoint Split (s : string) (sep : ascii) : list string :=
  match s with
  | EmptyString => [EmptyString]
  | String c s' =>
      if Ascii.eqb c sep then EmptyString :: Split s' sep
      else match Split s' sep with
           | tok :: rest => String c tok :: rest
           | [] => [String c EmptyString]
           end
  end.

(** [strings.Join(elems, sep)]. *)
Fixpoint Join (elems : list string) (sep : string) : string :=
  match elems with
  | [] => EmptyString
  | [e] => e
  | e :: rest => e +:+ sep +:+ Join rest sep
  end.

(** [c] does not occur in [s]. *)
Fixpoint free_of (c : ascii) (s : string) : bool :=
  match s with
  | EmptyString => true
  | String d s' => negb (Ascii.eqb d c) && free_of c s'
  end.

(** [strings.HasPrefix(s, prefix)]. *)
Fixpoint HasPrefix (s prefix : string) {struct prefix} : bool :=
  match prefix, s with
  | EmptyString, _ => true
  | String _ _, EmptyString => false
  | String a prefix', String b s' => Ascii.eqb a b && HasPrefix s' prefix'
  end.

(** [strings.Contains(s, needle)]: [needle] occurs in [s] as a contiguous
    run of bytes. *)
Fixpoint Contains (s needle : string) : bool :=
  HasPrefix s needle
  || match s with
     | EmptyString => false
     | String _ s' => Contains s' needle
     end.

End strings.

(** The double-quote byte, for messages that quote a key. *)
Definition dquote : string := String (Ascii.ascii_of_nat 34) EmptyString.

(** ** JSON documents ([encoding/json]) *)

Inductive json : Type :=
  | JNull
  | JBool (b : bool)
  | JNumber (literal : string)
  | JString (s : string)
  | JArray (elems : list json)
  | JObject (fields : gmap string json).

(** ** Access modes ([k8s.io/api/core/v1]) *)

Definition PersistentVolumeAccessMode := string.

Definition ReadWriteOnce : PersistentVolumeAccessMode := "ReadWriteOnce".
Definition ReadOnlyMany : PersistentVolumeAccessMode := "ReadOnlyMany".
Definition ReadWriteMany : PersistentVolumeAccessMode := "ReadWriteMany".

(** [type AccessModes struct { Modes []v1.PersistentVolumeAccessMode }];
    a nil slice and an empty slice are both the empty list. *)
Record AccessModes := mkAccessModes { Modes : list PersistentVolumeAccessMode }.

(** ** Results *)

Inductive result (E A : Type) : Type :=
  | Ok (a : A)
  | Err (e : E).
Arguments Ok {E A} a.
Arguments Err {E A} e.

(** ** Types declared outside this file

    The three volume structs live in [types/volume.go]; [resource.Quantity],
    [v1.ObjectReference] and [v1.PersistentVolumeStatus] are Kubernetes API
    types.  The codec only stores and forwards their values, so they are
    abstract here, each with the zero value that [&T{}] allocates. *)

Class VolumeTypes := {
  GcePDVolume : Type;
  AwsEBSVolume : Type;
  HostPathVolume : Type;
  Quantity : Type;
  ObjectReference : Type;
  PersistentVolumeStatus : Type;
  GcePDVolume_zero : GcePDVolume;
  AwsEBSVolume_zero : AwsEBSVolume;
  HostPathVolume_zero : HostPathVolume;
  Quantity_zero : Quantity;
  ObjectReference_zero : ObjectReference;
  PersistentVolumeStatus_zero : PersistentVolumeStatus;
}.

Section DataModel.
Context `{VolumeTypes}.

Definition PersistentVolumeReclaimPolicy := string.

Definition PersistentVolumeReclaimRecycle : PersistentVolumeReclaimPolicy := "recycle".
Definition PersistentVolumeReclaimDelete : PersistentVolumeReclaimPolicy := "delete".
Definition PersistentVolumeReclaimRetain : PersistentVolumeReclaimPolicy := "retain".

(** [type PersistentVolumeMeta struct].  A pointer field is an [option];
    a map field is a finite map (a nil map is the empty map).  The field
    [AccessModes] is [MetaAccessModes] here, the type keeping the name. *)
Record PersistentVolumeMeta := mkMeta {
  Version : string;
  Cluster : string;
  Name : string;
  Namespace : string;
  Labels : gmap string string;
  Annotations : gmap string string;
  Storage : option Quantity;
  MetaAccessModes : option AccessModes;
  Claim : option ObjectReference;
  ReclaimPolicy : PersistentVolumeReclaimPolicy;
  StorageClass : string;
  MountOptions : string;
  Status : option PersistentVolumeStatus;
}.

(** [type PersistentVolumeSource struct]: three nullable arms. *)
Record PersistentVolumeSource := mkSource {
  GcePD : option GcePDVolume;
  AwsEBS : option AwsEBSVolume;
  HostPath : option HostPathVolume;
}.

(** [type PersistentVolume struct]: the two embedded structs. *)
Record PersistentVolume := mkPV {
  Meta : PersistentVolumeMeta;
  Source : PersistentVolumeSource;
}.

(** [MarshalledVolume] as this file uses it: [Type], [Selector] and
    [ExtraFields], the last holding the JSON encoding of each extra value. *)
Record MarshalledVolume := mkMarshalled {
  Type_ : string;
  Selector : list string;
  ExtraFields : gmap string json;
}.

(** The zero values of the structs of this file. *)
Definition PersistentVolumeMeta_zero : PersistentVolumeMeta :=
  mkMeta "" "" "" "" ∅ ∅ None None None "" "" "" None.
Definition PersistentVolumeSource_zero : PersistentVolumeSource :=
  mkSource None None None.
Definition PersistentVolume_zero : PersistentVolume :=
  mkPV PersistentVolumeMeta_zero PersistentVolumeSource_zero.

(** ** Errors

    A value passed as [interface{}] to an error constructor. *)
Inductive GoValue : Type :=
  | VString (s : string)
  | VData (data : json)
  | VObject (obj : gmap string json)
  | VAccessModes (a : AccessModes)
  | VMeta (m : PersistentVolumeMeta)
  | VSource (s : PersistentVolumeSource)
  | VPersistentVolume (v : PersistentVolume).

(** The [error] values that reach this file: the constructors of package
    [util] with the value and the formatted message they are given, the two
    errors [encoding/json] raises itself, and the error of
    [util.GetStringEntry]. *)
Inductive error : Type :=
  | InvalidInstanceError (val : GoValue)
  | InvalidInstanceErrorf (val : GoValue) (msg : string)
  | InvalidValueErrorf (val : GoValue) (msg : string)
  | InvalidValueForTypeErrorf (val : GoValue) (typ : GoValue) (msg : string)
  | MissingOrInvalidField (obj : gmap string json) (key : string)
  | MarshalerError (typ : string) (err : error)
  | UnmarshalTypeError (value : string) (typ : string).

End DataModel.

Arguments InvalidInstanceError {_} val.
Arguments InvalidInstanceErrorf {_} val msg.
Arguments InvalidValueErrorf {_} val msg.
Arguments InvalidValueForTypeErrorf {_} val typ msg.
Arguments MissingOrInvalidField {_} obj key.
Arguments MarshalerError {_} typ err.
Arguments UnmarshalTypeError {_} value typ.

(** ** Collaborators

    What this file calls but does not define: the tag constants and the
    [Marshal]/[Unmarshal] methods of the three volume structs
    ([types/volume.go]), the text [err.Error()] of an error, and the JSON
    codecs of the Kubernetes types.  A pointer-receiver [Unmarshal] takes the
    struct it is called on and returns the struct it leaves behind.  The
    three tags label the cases of one [switch], so they are distinct (Go
    rejects a repeated constant case). *)
Class Collaborators `{VolumeTypes} := {
  VolumeTypeGcePD : string;
  VolumeTypeAwsEBS : string;
  VolumeTypeHostPath : string;
  VolumeType_GcePD_AwsEBS : VolumeTypeGcePD ≠ VolumeTypeAwsEBS;
  VolumeType_GcePD_HostPath : VolumeTypeGcePD ≠ VolumeTypeHostPath;
  VolumeType_AwsEBS_HostPath : VolumeTypeAwsEBS ≠ VolumeTypeHostPath;
  GcePDVolume_Unmarshal :
    GcePDVolume → gmap string json → list string → GcePDVolume * option error;
  AwsEBSVolume_Unmarshal :
    AwsEBSVolume → gmap string json → list string → AwsEBSVolume * option error;
  HostPathVolume_Unmarshal :
    HostPathVolume → list string → HostPathVolume * option error;
  GcePDVolume_Marshal : GcePDVolume → option MarshalledVolume * option error;
  AwsEBSVolume_Marshal : AwsEBSVolume → option MarshalledVolume * option error;
  HostPathVolume_Marshal : HostPathVolume → option MarshalledVolume * option error;
  Error : error → string;
  Quantity_MarshalJSON : Quantity → result error json;
  Quantity_UnmarshalJSON : Quantity → json → Quantity * option error;
  ObjectReference_encode : ObjectReference → json;
  ObjectReference_decode : ObjectReference → json → ObjectReference * option error;
  PersistentVolumeStatus_encode : PersistentVolumeStatus → json;
  PersistentVolumeStatus_decode :
    PersistentVolumeStatus → json → PersistentVolumeStatus * option error;
}.

(** ** The compact access-mode list *)

Section AccessModesCodec.
Context `{VolumeTypes}.

(** The loop of [ToString]: [modes[i]] receives the symbol of the [i]-th
    mode; a mode outside the three constants ends the call. *)
Fixpoint ToString_loop (ms : list PersistentVolumeAccessMode) (i : nat)
    (modes : list string) : result error (list string) :=
  match ms with
  | [] => Ok modes
  | mode :: rest =>
      if decide (mode = ReadOnlyMany) then ToString_loop rest (S i) (<[i:="ro"]> modes)
      else if decide (mode = ReadWriteMany) then ToString_loop rest (S i) (<[i:="rw"]> modes)
      else if decide (mode = ReadWriteOnce) then ToString_loop rest (S i) (<[i:="rw-once"]> modes)
      else Err (InvalidInstanceError (VString mode))
  end.

(** [func (a *AccessModes) ToString() (string, error)]; [None] is the nil
    receiver. *)
Definition AccessModes_ToString (a : option AccessModes) : result error string :=
  match a with
  | None => Ok ""
  | Some a =>
      if decide (length (Modes a) = 0) then Ok ""
      else
        match ToString_loop (Modes a) 0 (replicate (length (Modes a)) "") with
        | Err err => Err err
        | Ok modes => Ok (strings.Join modes ",")
        end
  end.

(** The loop of [InitFromString]: [a.Modes[i]] receives the mode of the
    [i]-th token; an unknown token ends the call with the receiver as it
    stands and the whole input string [s]. *)
Fixpoint InitFromString_loop (s : string) (modes : list string) (i : nat)
    (a : AccessModes) : AccessModes * option error :=
  match modes with
  | [] => (a, None)
  | mode :: rest =>
      if decide (mode = "ro")
      then InitFromString_loop s rest (S i) (mkAccessModes (<[i:=ReadOnlyMany]> (Modes a)))
      else if decide (mode = "rw")
      then InitFromString_loop s rest (S i) (mkAccessModes (<[i:=ReadWriteMany]> (Modes a)))
      else if decide (mode = "rw-once")
      then InitFromString_loop s rest (S i) (mkAccessModes (<[i:=ReadWriteOnce]> (Modes a)))
      else (a, Some (InvalidValueErrorf (VAccessModes a)
                       ("couldn't parse (" +:+ s +:+ ")")))
  end.

(** [func (a *AccessModes) InitFromString(s string) error]. *)
Definition AccessModes_InitFromString (a : AccessModes) (s : string)
    : AccessModes * option error :=
  let modes := strings.Split s "," in
  if decide (length modes = 0) then (mkAccessModes [], None)
  else InitFromString_loop s modes 0 (mkAccessModes (replicate (length modes) "")).

End AccessModesCodec.

(** ** The codecs *)

Section Codec.
Context `{Collaborators}.

(** *** [encoding/json] as this file uses it *)

(** The word [encoding/json] uses for the kind of a JSON value. *)
Definition jsonKind (j : json) : string :=
  match j with
  | JNull => "null"
  | JBool _ => "bool"
  | JNumber _ => "number"
  | JString _ => "string"
  | JArray _ => "array"
  | JObject _ => "object"
  end.

(** [json.Unmarshal(data, &obj)] for [obj : map[string]interface{}]: an
    object gives its fields, [null] the nil map, anything else a type error. *)
Definition json_Unmarshal_map (data : json) : result error (gmap string json) :=
  match data with
  | JObject fields => Ok fields
  | JNull => Ok ∅
  | _ => Err (UnmarshalTypeError (jsonKind data) "map[string]interface {}")
  end.

(** [func (a AccessModes) MarshalJSON() ([]byte, error)]; marshalling a
    string cannot fail. *)
Definition AccessModes_MarshalJSON (a : AccessModes) : result error json :=
  match AccessModes_ToString (Some a) with
  | Err err => Err err
  | Ok str => Ok (JString str)
  end.

(** [func (a *AccessModes) UnmarshalJSON(data []byte) error]: the inner
    [json.Unmarshal(data, &str)] stores a JSON string, leaves [str] empty on
    [null] and rejects every other value. *)
Definition AccessModes_UnmarshalJSON (a : AccessModes) (data : json)
    : AccessModes * option error :=
  match data with
  | JString str => AccessModes_InitFromString a str
  | JNull => AccessModes_InitFromString a ""
  | _ =>
      (a, Some (InvalidValueForTypeErrorf (VData data) (VAccessModes a)
                  ("couldn't unmarshal from JSON: "
                   +:+ Error (UnmarshalTypeError (jsonKind data) "string"))))
  end.

(** *** [json.Marshal] of the metadata struct

    Every field is tagged [omitempty]: an empty string, an empty map and a
    nil pointer leave no key.  An error of a [MarshalJSON] method comes back
    wrapped in a [MarshalerError]. *)

Definition put_string (key s : string) (obj : gmap string json) : gmap string json :=
  if decide (s = "") then obj else <[key := JString s]> obj.

Definition put_map (key : string) (m : gmap string string) (obj : gmap string json)
    : gmap string json :=
  if decide (size m = 0) then obj else <[key := JObject (JString <$> m)]> obj.

Definition put_struct {T} (key : string) (enc : T → json) (p : option T)
    (obj : gmap string json) : gmap string json :=
  match p with
  | None => obj
  | Some x => <[key := enc x]> obj
  end.

Definition put_marshaler {T} (key typ : string) (marshal : T → result error json)
    (p : option T) (obj : gmap string json) : result error (gmap string json) :=
  match p with
  | None => Ok obj
  | Some x =>
      match marshal x with
      | Ok j => Ok (<[key := j]> obj)
      | Err err => Err (MarshalerError typ err)
      end
  end.

Definition json_Marshal_Meta (m : PersistentVolumeMeta) : result error json :=
  let obj := put_string "version" (Version m) ∅ in
  let obj := put_string "cluster" (Cluster m) obj in
  let obj := put_string "name" (Name m) obj in
  let obj := put_string "namespace" (Namespace m) obj in
  let obj := put_map "labels" (Labels m) obj in
  let obj := put_map "annotations" (Annotations m) obj in
  match put_marshaler "storage" "resource.Quantity" Quantity_MarshalJSON (Storage m) obj with
  | Err err => Err err
  | Ok obj =>
      match put_marshaler "modes" "types.AccessModes" AccessModes_MarshalJSON
              (MetaAccessModes m) obj with
      | Err err => Err err
      | Ok obj =>
          let obj := put_struct "claim" ObjectReference_encode (Claim m) obj in
          let obj := put_string "reclaim" (ReclaimPolicy m) obj in
          let obj := put_string "storage_class" (StorageClass m) obj in
          let obj := put_string "mount_options" (MountOptions m) obj in
          let obj := put_struct "status" PersistentVolumeStatus_encode (Status m) obj in
          Ok (JObject obj)
      end
  end.

(** *** [json.Unmarshal] into the metadata struct

    Keys are matched exactly against the field tags and decoded in the order
    of the struct's fields; a key the struct does not know is ignored.  A
    value of the wrong JSON kind leaves the field as it is and is remembered
    (the first such error is returned once the object is done); an error of
    an [UnmarshalJSON] method ends the decode at once.  [null] clears a
    pointer or a map and leaves a string alone. *)

Inductive fieldOutcome : Type :=
  | FieldOk
  | FieldSaved (e : error)
  | FieldFatal (e : error).

Definition saved (o : option error) : fieldOutcome :=
  match o with None => FieldOk | Some e => FieldSaved e end.

Definition fatal (o : option error) : fieldOutcome :=
  match o with None => FieldOk | Some e => FieldFatal e end.

Definition decode_string (old : string) (j : json) : string * fieldOutcome :=
  match j with
  | JString s => (s, FieldOk)
  | JNull => (old, FieldOk)
  | _ => (old, FieldSaved (UnmarshalTypeError (jsonKind j) "string"))
  end.

Definition entry_string (j : json) : string :=
  match j with JString s => s | _ => "" end.

Definition entry_error (j : json) : option error :=
  match j with
  | JString _ | JNull => None
  | _ => Some (UnmarshalTypeError (jsonKind j) "string")
  end.

(** A [map[string]string] field: the entries of the object are added to the
    map already there; an entry that is not a string is stored empty. *)
Definition decode_string_map (old : gmap string string) (j : json)
    : gmap string string * fieldOutcome :=
  match j with
  | JObject fields =>
      ((entry_string <$> fields) ∪ old,
       saved (head (omap (λ kv, entry_error kv.2) (map_to_list fields))))
  | JNull => (∅, FieldOk)
  | _ => (old, FieldSaved (UnmarshalTypeError (jsonKind j) "map[string]string"))
  end.

(** A pointer field: [null] sets it to nil; any other value is decoded into
    the struct it points to, allocated first if the pointer is nil. *)
Definition decode_pointer {T} (zero : T) (dec : T → json → T * option error)
    (old : option T) (j : json) : option T * option error :=
  match j with
  | JNull => (None, None)
  | _ => let '(x, err) := dec (default zero old) j in (Some x, err)
  end.

Definition set_Version (x : string) (m : PersistentVolumeMeta) :=
  mkMeta x (Cluster m) (Name m) (Namespace m) (Labels m) (Annotations m) (Storage m)
    (MetaAccessModes m) (Claim m) (ReclaimPolicy m) (StorageClass m) (MountOptions m) (Status m).
Definition set_Cluster (x : string) (m : PersistentVolumeMeta) :=
  mkMeta (Version m) x (Name m) (Namespace m) (Labels m) (Annotations m) (Storage m)
    (MetaAccessModes m) (Claim m) (ReclaimPolicy m) (StorageClass m) (MountOptions m) (Status m).
Definition set_Name (x : string) (m : PersistentVolumeMeta) :=
  mkMeta (Version m) (Cluster m) x (Namespace m) (Labels m) (Annotations m) (Storage m)
    (MetaAccessModes m) (Claim m) (ReclaimPolicy m) (StorageClass m) (MountOptions m) (Status m).
Definition set_Namespace (x : string) (m : PersistentVolumeMeta) :=
  mkMeta (Version m) (Cluster m) (Name m) x (Labels m) (Annotations m) (Storage m)
    (MetaAccessModes m) (Claim m) (ReclaimPolicy m) (StorageClass m) (MountOptions m) (Status m).
Definition set_Labels (x : gmap string string) (m : PersistentVolumeMeta) :=
  mkMeta (Version m) (Cluster m) (Name m) (Namespace m) x (Annotations m) (Storage m)
    (MetaAccessModes m) (Claim m) (ReclaimPolicy m) (StorageClass m) (MountOptions m) (Status m).
Definition set_Annotations (x : gmap string string) (m : PersistentVolumeMeta) :=
  mkMeta (Version m) (Cluster m) (Name m) (Namespace m) (Labels m) x (Storage m)
    (MetaAccessModes m) (Claim m) (ReclaimPolicy m) (StorageClass m) (MountOptions m) (Status m).
Definition set_Storage (x : option Quantity) (m : PersistentVolumeMeta) :=
  mkMeta (Version m) (Cluster m) (Name m) (Namespace m) (Labels m) (Annotations m) x
    (MetaAccessModes m) (Claim m) (ReclaimPolicy m) (StorageClass m) (MountOptions m) (Status m).
Definition set_AccessModes (x : option AccessModes) (m : PersistentVolumeMeta) :=
  mkMeta (Version m) (Cluster m) (Name m) (Namespace m) (Labels m) (Annotations m) (Storage m)
    x (Claim m) (ReclaimPolicy m) (StorageClass m) (MountOptions m) (Status m).
Definition set_Claim (x : option ObjectReference) (m : PersistentVolumeMeta) :=
  mkMeta (Version m) (Cluster m) (Name m) (Namespace m) (Labels m) (Annotations m) (Storage m)
    (MetaAccessModes m) x (ReclaimPolicy m) (StorageClass m) (MountOptions m) (Status m).
Definition set_ReclaimPolicy (x : string) (m : PersistentVolumeMeta) :=
  mkMeta (Version m) (Cluster m) (Name m) (Namespace m) (Labels m) (Annotations m) (Storage m)
    (MetaAccessModes m) (Claim m) x (StorageClass m) (MountOptions m) (Status m).
Definition set_StorageClass (x : string) (m : PersistentVolumeMeta) :=
  mkMeta (Version m) (Cluster m) (Name m) (Namespace m) (Labels m) (Annotations m) (Storage m)
    (MetaAccessModes m) (Claim m) (ReclaimPolicy m) x (MountOptions m) (Status m).
Definition set_MountOptions (x : string) (m : PersistentVolumeMeta) :=
  mkMeta (Version m) (Cluster m) (Name m) (Namespace m) (Labels m) (Annotations m) (Storage m)
    (MetaAccessModes m) (Claim m) (ReclaimPolicy m) (StorageClass m) x (Status m).
Definition set_Status (x : option PersistentVolumeStatus) (m : PersistentVolumeMeta) :=
  mkMeta (Version m) (Cluster m) (Name m) (Namespace m) (Labels m) (Annotations m) (Storage m)
    (MetaAccessModes m) (Claim m) (ReclaimPolicy m) (StorageClass m) (MountOptions m) x.

Definition fieldDecoder : Type :=
  PersistentVolumeMeta → json → PersistentVolumeMeta * fieldOutcome.

Definition string_field (get : PersistentVolumeMeta → string)
    (set : string → PersistentVolumeMeta → PersistentVolumeMeta) : fieldDecoder :=
  λ m j, let '(x, out) := decode_string (get m) j in (set x m, out).

Definition map_field (get : PersistentVolumeMeta → gmap string string)
    (set : gmap string string → PersistentVolumeMeta → PersistentVolumeMeta)
    : fieldDecoder :=
  λ m j, let '(x, out) := decode_string_map (get m) j in (set x m, out).

(** A pointer to a type with its own [UnmarshalJSON]: its error is fatal. *)
Definition unmarshaler_field {T} (zero : T) (dec : T → json → T * option error)
    (get : PersistentVolumeMeta → option T)
    (set : option T → PersistentVolumeMeta → PersistentVolumeMeta) : fieldDecoder :=
  λ m j, let '(x, err) := decode_pointer zero dec (get m) j in (set x m, fatal err).

(** A pointer to a plain struct: its error is a remembered type error. *)
Definition struct_field {T} (zero : T) (dec : T → json → T * option error)
    (get : PersistentVolumeMeta → option T)
    (set : option T → PersistentVolumeMeta → PersistentVolumeMeta) : fieldDecoder :=
  λ m j, let '(x, err) := decode_pointer zero dec (get m) j in (set x m, saved err).

(** The field tags of [PersistentVolumeMeta], in declaration order. *)
Definition metaFields : list (string * fieldDecoder) :=
  [ ("version", string_field Version set_Version);
    ("cluster", string_field Cluster set_Cluster);
    ("name", string_field Name set_Name);
    ("namespace", string_field Namespace set_Namespace);
    ("labels", map_field Labels set_Labels);
    ("annotations", map_field Annotations set_Annotations);
    ("storage", unmarshaler_field Quantity_zero Quantity_UnmarshalJSON Storage set_Storage);
    ("modes", unmarshaler_field (mkAccessModes []) AccessModes_UnmarshalJSON
                MetaAccessModes set_AccessModes);
    ("claim", struct_field ObjectReference_zero ObjectReference_decode Claim set_Claim);
    ("reclaim", string_field ReclaimPolicy set_ReclaimPolicy);
    ("storage_class", string_field StorageClass set_StorageClass);
    ("mount_options", string_field MountOptions set_MountOptions);
    ("status", struct_field PersistentVolumeStatus_zero PersistentVolumeStatus_decode
                 Status set_Status) ].

Fixpoint decodeFields (fields : list (string * fieldDecoder)) (obj : gmap string json)
    (m : PersistentVolumeMeta) (first : option error)
    : PersistentVolumeMeta * option error :=
  match fields with
  | [] => (m, first)
  | (key, dec) :: rest =>
      match obj !! key with
      | None => decodeFields rest obj m first
      | Some j =>
          match dec m j with
          | (m', FieldOk) => decodeFields rest obj m' first
          | (m', FieldSaved e) =>
              decodeFields rest obj m' (Some (default e first))
          | (m', FieldFatal e) => (m', Some e)
          end
      end
  end.

(** [json.Unmarshal(data, &v.PersistentVolumeMeta)]. *)
Definition json_Unmarshal_Meta (m : PersistentVolumeMeta) (data : json)
    : PersistentVolumeMeta * option error :=
  match data with
  | JObject obj => decodeFields metaFields obj m None
  | JNull => (m, None)
  | _ => (m, Some (UnmarshalTypeError (jsonKind data) "types.PersistentVolumeMeta"))
  end.

(** *** The volume source *)

(** Modelled from the spec: [util.GetStringEntry], which is not in this
    file.  It reads a required field: the string at [key], or a
    missing-or-invalid-field error naming the field when the key is absent or
    its value is not a string. *)
Definition GetStringEntry (obj : gmap string json) (key : string) : result error string :=
  match obj !! key with
  | Some (JString str) => Ok str
  | _ => Err (MissingOrInvalidField obj key)
  end.

Definition set_GcePD (x : option GcePDVolume) (v : PersistentVolumeSource) :=
  mkSource x (AwsEBS v) (HostPath v).
Definition set_AwsEBS (x : option AwsEBSVolume) (v : PersistentVolumeSource) :=
  mkSource (GcePD v) x (HostPath v).
Definition set_HostPath (x : option HostPathVolume) (v : PersistentVolumeSource) :=
  mkSource (GcePD v) (AwsEBS v) x.

(** [func (v *PersistentVolumeSource) Unmarshal(obj, volType, selector) error]:
    the arm of the tag is pointed at a fresh struct, then that struct decodes
    itself; the arm keeps whatever the struct has become. *)
Definition PersistentVolumeSource_Unmarshal (v : PersistentVolumeSource)
    (obj : gmap string json) (volType : string) (selector : list string)
    : PersistentVolumeSource * option error :=
  if decide (volType = VolumeTypeGcePD) then
    let '(g, err) := GcePDVolume_Unmarshal GcePDVolume_zero obj selector in
    (set_GcePD (Some g) v, err)
  else if decide (volType = VolumeTypeAwsEBS) then
    let '(a, err) := AwsEBSVolume_Unmarshal AwsEBSVolume_zero obj selector in
    (set_AwsEBS (Some a) v, err)
  else if decide (volType = VolumeTypeHostPath) then
    let '(h, err) := HostPathVolume_Unmarshal HostPathVolume_zero selector in
    (set_HostPath (Some h) v, err)
  else
    (v, Some (InvalidValueErrorf (VString volType)
                ("unsupported volume type (" +:+ volType +:+ ")"))).

(** The selector read from the key ["vol_id"]: absent, the nil slice; a
    string, its colon-separated tokens; anything else, an error. *)
Definition read_selector (data : json) (obj : gmap string json)
    : result error (list string) :=
  match obj !! "vol_id" with
  | None => Ok []
  | Some (JString volName) => Ok (strings.Split volName ":")
  | Some _ =>
      Err (InvalidValueErrorf (VData data)
             ("expected string for key " +:+ dquote +:+ "vol_id" +:+ dquote))
  end.

(** [func (v *PersistentVolumeSource) UnmarshalJSON(data []byte) error]. *)
Definition PersistentVolumeSource_UnmarshalJSON (v : PersistentVolumeSource)
    (data : json) : PersistentVolumeSource * option error :=
  match json_Unmarshal_map data with
  | Err _ =>
      (v, Some (InvalidValueErrorf (VData data)
                  "expected dictionary for persistent volume"))
  | Ok obj =>
      match read_selector data obj with
      | Err err => (v, Some err)
      | Ok selector =>
          match GetStringEntry obj "vol_type" with
          | Err err => (v, Some err)
          | Ok volType => PersistentVolumeSource_Unmarshal v obj volType selector
          end
      end
  end.

(** The three [if] statements that open [PersistentVolumeSource.MarshalJSON]:
    each non-nil arm assigns both [marshalledVolume] and [err]. *)
Definition selectVolume (v : PersistentVolumeSource)
    : option MarshalledVolume * option error :=
  let r := (None, None) in
  let r := match GcePD v with Some g => GcePDVolume_Marshal g | None => r end in
  let r := match AwsEBS v with Some a => AwsEBSVolume_Marshal a | None => r end in
  let r := match HostPath v with Some h => HostPathVolume_Marshal h | None => r end in
  r.

(** The object built from a marshalled volume: its extra fields, the tag
    under ["vol_type"] and, for a non-empty selector, the colon-joined
    tokens under ["vol_id"]. *)
Definition volumeObject (mv : MarshalledVolume) : gmap string json :=
  let extra := if decide (size (ExtraFields mv) = 0) then ∅ else ExtraFields mv in
  let obj := <["vol_type" := JString (Type_ mv)]> extra in
  if decide (0 < length (Selector mv))
  then <["vol_id" := JString (strings.Join (Selector mv) ":")]> obj
  else obj.

(** [func (v PersistentVolumeSource) MarshalJSON() ([]byte, error)]. *)
Definition PersistentVolumeSource_MarshalJSON (v : PersistentVolumeSource)
    : result error json :=
  let '(marshalledVolume, err) := selectVolume v in
  match err with
  | Some err => Err err
  | None =>
      match marshalledVolume with
      | None => Err (InvalidInstanceErrorf (VSource v) "empty volume definition")
      | Some mv => Ok (JObject (volumeObject mv))
      end
  end.

(** [json.Marshal(v.PersistentVolumeSource)]: the method above, its error
    wrapped by [encoding/json]. *)
Definition json_Marshal_Source (v : PersistentVolumeSource) : result error json :=
  match PersistentVolumeSource_MarshalJSON v with
  | Ok j => Ok j
  | Err err => Err (MarshalerError "types.PersistentVolumeSource" err)
  end.

(** *** The resource *)

(** [func (v *PersistentVolume) UnmarshalJSON(data []byte) error]. *)
Definition PersistentVolume_UnmarshalJSON (v : PersistentVolume) (data : json)
    : PersistentVolume * option error :=
  let '(source, err) := PersistentVolumeSource_UnmarshalJSON (Source v) data in
  let v := mkPV (Meta v) source in
  match err with
  | Some err =>
      (v, Some (InvalidValueForTypeErrorf (VData data) (VPersistentVolume v)
                  ("couldn't unmarshal volume source from JSON: " +:+ Error err)))
  | None =>
      let '(meta, err) := json_Unmarshal_Meta (Meta v) data in
      let v := mkPV meta (Source v) in
      match err with
      | Some err =>
          (v, Some (InvalidValueForTypeErrorf (VData data) (VPersistentVolume v)
                      ("couldn't unmarshal metadata from JSON: " +:+ Error err)))
      | None => (v, None)
      end
  end.

(** The merge loop [for key, val := range metaObj { sourceObj[key] = val }]. *)
Definition mergeInto (metaObj sourceObj : gmap string json) : gmap string json :=
  map_fold (λ key val acc, <[key := val]> acc) sourceObj metaObj.

(** [func (v PersistentVolume) MarshalJSON() ([]byte, error)]. *)
Definition PersistentVolume_MarshalJSON (v : PersistentVolume) : result error json :=
  match json_Marshal_Meta (Meta v) with
  | Err err =>
      Err (InvalidInstanceErrorf (VPersistentVolume v)
             ("couldn't marshal metadata to JSON: " +:+ Error err))
  | Ok b =>
      match json_Marshal_Source (Source v) with
      | Err err => Err err
      | Ok bb =>
          match json_Unmarshal_map b with
          | Err err =>
              Err (InvalidValueForTypeErrorf (VData b) (VMeta (Meta v))
                     ("couldn't convert metadata to dictionary: " +:+ Error err))
          | Ok metaObj =>
              match json_Unmarshal_map bb with
              | Err err =>
                  Err (InvalidValueForTypeErrorf (VData bb) (VSource (Source v))
                         ("couldn't convert volume source to dictionary: "
                          +:+ Error err))
              | Ok sourceObj => Ok (JObject (mergeInto metaObj sourceObj))
              end
          end
      end
  end.

End Codec.

(** * Properties of the compact access-mode list *)

(** The symbol table of the spec: the three modes and their symbols. *)
Definition modeSymbol (m : PersistentVolumeAccessMode) : option string :=
  if decide (m = ReadOnlyMany) then Some "ro"
  else if decide (m = ReadWriteMany) then Some "rw"
  else if decide (m = ReadWriteOnce) then Some "rw-once"
  else None.

Definition symbolMode (tok : string) : option PersistentVolumeAccessMode :=
  if decide (tok = "ro") then Some ReadOnlyMany
  else if decide (tok = "rw") then Some ReadWriteMany
  else if decide (tok = "rw-once") then Some ReadWriteOnce
  else None.

(** A list of access modes drawn from the three constants. *)
Definition validModes (ms : list PersistentVolumeAccessMode) : Prop :=
  Forall (λ m, m = ReadOnlyMany ∨ m = ReadWriteMany ∨ m = ReadWriteOnce) ms.

(** The symbols of a list of modes (empty for a mode outside the table). *)
Definition symbols (ms : list PersistentVolumeAccessMode) : list string :=
  (λ m, default "" (modeSymbol m)) <$> ms.

(** The modes of a list of tokens (empty for a token outside the table). *)
Definition parsed (toks : list string) : list PersistentVolumeAccessMode :=
  (λ t, default "" (symbolMode t)) <$> toks.

(** The message of [InitFromString] for the argument [arg]: the format
    ["couldn't parse (%s)"] filled in. *)
Definition parseMessage (arg : string) : string := "couldn't parse (" +:+ arg +:+ ")".

(** An error identifies the token [tok] when it was built from it: [tok] is
    the value it carries, or the argument of its message. *)
Definition builtFromToken `{VolumeTypes} (e : error) (tok : string) : Prop :=
  ∃ val msg, e = InvalidValueErrorf val msg
             ∧ (val = VString tok ∨ msg = parseMessage tok).

(** The volume that the last non-nil slot marshals to, taking the slots in
    the order [GcePD], [AwsEBS], [HostPath]; [None] when all three are nil. *)
Definition lastSlot `{Collaborators} (v : PersistentVolumeSource)
    : option (option MarshalledVolume * option error) :=
  match HostPath v with
  | Some h => Some (HostPathVolume_Marshal h)
  | None =>
      match AwsEBS v with
      | Some a => Some (AwsEBSVolume_Marshal a)
      | None =>
          match GcePD v with
          | Some g => Some (GcePDVolume_Marshal g)
          | None => None
          end
      end
  end.

(** * A sample registry

    Small stand-ins for the collaborators, on which the theorems below are
    exercised: three volumes named by one selector token (the host path is
    its path, as in the scenario ["vol_type":"hostpath","vol_id":"/data"]),
    the EBS volume also carrying a display name as the extra field ["name"];
    string-valued Kubernetes types. *)
Module Sample.

Record gce := mkGce { PDName : string }.
Record aws := mkAws { VolumeID : string; DisplayName : string }.
Record hostpath := mkHostPath { Path : string }.

#[export] Instance types : VolumeTypes := {|
  GcePDVolume := gce;
  AwsEBSVolume := aws;
  HostPathVolume := hostpath;
  Quantity := string;
  ObjectReference := string;
  PersistentVolumeStatus := string;
  GcePDVolume_zero := mkGce "";
  AwsEBSVolume_zero := mkAws "" "";
  HostPathVolume_zero := mkHostPath "";
  Quantity_zero := "";
  ObjectReference_zero := "";
  PersistentVolumeStatus_zero := "";
|}.

Definition selectorError (selector : list string) : error :=
  InvalidValueErrorf (VString (strings.Join selector ":"))
    "expected exactly one selector token".

Definition gce_Unmarshal (g : gce) (obj : gmap string json) (selector : list string)
    : gce * option error :=
  match selector with
  | [name] => (mkGce name, None)
  | _ => (g, Some (selectorError selector))
  end.

Definition aws_Unmarshal (a : aws) (obj : gmap string json) (selector : list string)
    : aws * option error :=
  match selector with
  | [id] =>
      match obj !! "name" with
      | Some (JString n) => (mkAws id n, None)
      | None => (mkAws id (DisplayName a), None)
      | Some _ =>
          (mkAws id (DisplayName a),
           Some (InvalidValueErrorf (VObject obj) "expected string for key name"))
      end
  | _ => (a, Some (selectorError selector))
  end.

Definition hostpath_Unmarshal (h : hostpath) (selector : list string)
    : hostpath * option error :=
  match selector with
  | [path] => (mkHostPath path, None)
  | _ => (h, Some (selectorError selector))
  end.

Definition gce_Marshal (g : gce) : option MarshalledVolume * option error :=
  (Some (mkMarshalled "gce_pd" [PDName g] ∅), None).

Definition aws_Marshal (a : aws) : option MarshalledVolume * option error :=
  (Some (mkMarshalled "aws_ebs" [VolumeID a] {["name" := JString (DisplayName a)]}), None).

Definition hostpath_Marshal (h : hostpath) : option MarshalledVolume * option error :=
  (Some (mkMarshalled "hostpath" [Path h] ∅), None).

Fixpoint errorText (e : error) : string :=
  match e with
  | InvalidInstanceError _ => "unrecognized instance"
  | InvalidInstanceErrorf _ msg => msg
  | InvalidValueErrorf _ msg => msg
  | InvalidValueForTypeErrorf _ _ msg => msg
  | MissingOrInvalidField _ key => "missing or invalid field " +:+ key
  | MarshalerError typ err =>
      "json: error calling MarshalJSON for type " +:+ typ +:+ ": " +:+ errorText err
  | UnmarshalTypeError value typ =>
      "json: cannot unmarshal " +:+ value +:+ " into Go value of type " +:+ typ
  end.

Definition string_decode (typ key : string) (old : string) (j : json)
    : string * option error :=
  match j with
  | JObject fields =>
      match fields !! key with
      | Some (JString s) => (s, None)
      | Some JNull | None => (old, None)
      | Some x => (old, Some (UnmarshalTypeError (jsonKind x) "string"))
      end
  | _ => (old, Some (UnmarshalTypeError (jsonKind j) typ))
  end.

Definition quantity_Unmarshal (old : string) (j : json) : string * option error :=
  match j with
  | JString s => (s, None)
  | _ => (old, Some (InvalidValueErrorf (VData j) "quantity must be a string"))
  end.

#[export] Instance collaborators : Collaborators := {|
  VolumeTypeGcePD := "gce_pd";
  VolumeTypeAwsEBS := "aws_ebs";
  VolumeTypeHostPath := "hostpath";
  VolumeType_GcePD_AwsEBS := ltac:(discriminate);
  VolumeType_GcePD_HostPath := ltac:(discriminate);
  VolumeType_AwsEBS_HostPath := ltac:(discriminate);
  GcePDVolume_Unmarshal := gce_Unmarshal;
  AwsEBSVolume_Unmarshal := aws_Unmarshal;
  HostPathVolume_Unmarshal := hostpath_Unmarshal;
  GcePDVolume_Marshal := gce_Marshal;
  AwsEBSVolume_Marshal := aws_Marshal;
  HostPathVolume_Marshal := hostpath_Marshal;
  Error := errorText;
  Quantity_MarshalJSON := λ q, Ok (JString q);
  Quantity_UnmarshalJSON := quantity_Unmarshal;
  ObjectReference_encode := λ s, JObject {["name" := JString s]};
  ObjectReference_decode := string_decode "v1.ObjectReference" "name";
  PersistentVolumeStatus_encode := λ s, JObject {["phase" := JString s]};
  PersistentVolumeStatus_decode := string_decode "v1.PersistentVolumeStatus" "phase";
|}.

(** A metadata record with only the given name and access modes. *)
Definition meta (name : string) (modes : option AccessModes) : PersistentVolumeMeta :=
  mkMeta "" "" name "" ∅ ∅ None modes None "" "" "" None.

(** Inputs on which the theorems are exercised. *)
Definition two_arms : PersistentVolumeSource :=
  mkSource (Some (mkGce "disk")) None (Some (mkHostPath "/data")).

Definition pv_empty_modes : PersistentVolume :=
  mkPV (meta "pv1" (Some (mkAccessModes [])))
       (mkSource None None (Some (mkHostPath "/data"))).

Definition pv_named : PersistentVolume :=
  mkPV (meta "pv1" None) (mkSource None (Some (mkAws "vol-1" "scratch")) None).

Definition obj_unknown_tag : gmap string json :=
  {["vol_type" := JString "nfs"]}.


Definition obj_bad_modes : gmap string json :=
  <["modes" := JString "ro,bogus"]>
    (<["vol_id" := JString "/data"]> {["vol_type" := JString "hostpath"]}).

Definition obj_bad_name : gmap string json :=
  <["name" := JNumber "5"]>
    (<["vol_id" := JString "vol-1"]> {["vol_type" := JString "aws_ebs"]}).

(** The scenario of the spec: the host path [/data] with the modes
    ["ro,rw-once"]. *)
Definition pv_scenario : PersistentVolume :=
  mkPV (meta "pv1" (Some (mkAccessModes [ReadOnlyMany; ReadWriteOnce])))
       (mkSource None None (Some (mkHostPath "/data"))).

Definition pv_bad_mode : PersistentVolume :=
  mkPV (meta "pv1" (Some (mkAccessModes [ReadOnlyMany; "ReadWriteNever"])))
       (mkSource None None (Some (mkHostPath "/data"))).

End Sample.

(** * The round trip, spelled out

    What "valid" has to mean for [decode (encode r) = r] to hold. *)

Section RoundTripDefs.
Context `{Collaborators}.

(** The wire keys of the metadata. *)
Definition metaKeys : list string := metaFields.*1.

(** A pointer field whose value the collaborator's codec reads back: the
    encoding is not [null] and decodes, from the zero value, to the value. *)
Definition readsBack {T} (zero : T) (enc : T → result error json)
    (dec : T → json → T * option error) (p : option T) : Prop :=
  match p with
  | None => True
  | Some x => ∃ j, enc x = Ok j ∧ j ≠ JNull ∧ dec zero j = (x, None)
  end.

(** Valid metadata: the access-mode list, when present, is a non-empty list
    of the three modes, and the Kubernetes values are read back by their own
    codecs. *)
Definition validMeta (m : PersistentVolumeMeta) : Prop :=
  match MetaAccessModes m with
  | None => True
  | Some a => Modes a ≠ [] ∧ validModes (Modes a)
  end
  ∧ readsBack Quantity_zero Quantity_MarshalJSON Quantity_UnmarshalJSON (Storage m)
  ∧ readsBack ObjectReference_zero (λ c, Ok (ObjectReference_encode c))
      ObjectReference_decode (Claim m)
  ∧ readsBack PersistentVolumeStatus_zero (λ s, Ok (PersistentVolumeStatus_encode s))
      PersistentVolumeStatus_decode (Status m).

(** A source with exactly one arm populated, which marshals to [mv] under
    its own tag and decodes the flat object [obj], with the selector of
    [mv], back to itself. *)
Inductive oneArm (obj : gmap string json) (mv : MarshalledVolume)
    : PersistentVolumeSource → Prop :=
  | oneArm_GcePD g :
      GcePDVolume_Marshal g = (Some mv, None) →
      Type_ mv = VolumeTypeGcePD →
      GcePDVolume_Unmarshal GcePDVolume_zero obj (Selector mv) = (g, None) →
      oneArm obj mv (mkSource (Some g) None None)
  | oneArm_AwsEBS a :
      AwsEBSVolume_Marshal a = (Some mv, None) →
      Type_ mv = VolumeTypeAwsEBS →
      AwsEBSVolume_Unmarshal AwsEBSVolume_zero obj (Selector mv) = (a, None) →
      oneArm obj mv (mkSource None (Some a) None)
  | oneArm_HostPath h :
      HostPathVolume_Marshal h = (Some mv, None) →
      Type_ mv = VolumeTypeHostPath →
      HostPathVolume_Unmarshal HostPathVolume_zero (Selector mv) = (h, None) →
      oneArm obj mv (mkSource None None (Some h)).

(** A marshalled volume that fits the flat object: no selector token holds
    a colon, and no extra field sits on a metadata key or on ["vol_id"]. *)
Definition fitsFlatObject (mv : MarshalledVolume) : Prop :=
  Forall (λ t, strings.free_of ":" t = true) (Selector mv)
  ∧ ExtraFields mv !! "vol_id" = None
  ∧ ∀ k, k ∈ metaKeys → ExtraFields mv !! k = None.

(** *** Where the model and [encoding/json] agree

    The model carries a string byte for byte, a number as its literal, and
    matches a key against a field tag exactly.  [encoding/json] replaces
    bytes that are not valid UTF-8 when it marshals a string, turns the
    numbers of a [map[string]interface{}] into floats and writes them anew,
    and also accepts a key that matches a field tag up to case.  The
    conditions below keep a resource where none of this happens: ASCII
    strings, no numbers in the values that go through the generic map, and
    no extra field whose key matches a metadata key up to case. *)

Definition isASCIIByte (c : ascii) : bool :=
  match c with Ascii _ _ _ _ _ _ _ b7 => negb b7 end.

Fixpoint isASCII (s : string) : bool :=
  match s with
  | EmptyString => true
  | String c s' => isASCIIByte c && isASCII s'
  end.

(** The lower-case form of an ASCII letter; other bytes are kept. *)
Definition lowerByte (c : ascii) : ascii :=
  let n := nat_of_ascii c in
  if Nat.leb 65 n && Nat.leb n 90 then ascii_of_nat (n + 32) else c.

Fixpoint ToLower (s : string) : string :=
  match s with
  | EmptyString => EmptyString
  | String c s' => String (lowerByte c) (ToLower s')
  end.

(** A JSON value that the generic decode and the following encode leave as
    it is: ASCII strings and keys, no number. *)
Inductive wireStable : json → Prop :=
  | wireStable_null : wireStable JNull
  | wireStable_bool b : wireStable (JBool b)
  | wireStable_string s : isASCII s = true → wireStable (JString s)
  | wireStable_array elems : Forall wireStable elems → wireStable (JArray elems)
  | wireStable_object (fields : gmap string json) :
      (∀ k v, fields !! k = Some v → isASCII k = true) →
      (∀ k v, fields !! k = Some v → wireStable v) →
      wireStable (JObject fields).

Definition asciiMap (l : gmap string string) : Prop :=
  ∀ k v, l !! k = Some v → isASCII k = true ∧ isASCII v = true.

(** Metadata whose strings are ASCII and whose Kubernetes values encode to
    stable JSON. *)
Definition wireSafeMeta (m : PersistentVolumeMeta) : Prop :=
  isASCII (Version m) = true ∧ isASCII (Cluster m) = true
  ∧ isASCII (Name m) = true ∧ isASCII (Namespace m) = true
  ∧ isASCII (ReclaimPolicy m) = true ∧ isASCII (StorageClass m) = true
  ∧ isASCII (MountOptions m) = true
  ∧ asciiMap (Labels m) ∧ asciiMap (Annotations m)
  ∧ (∀ q j, Storage m = Some q → Quantity_MarshalJSON q = Ok j → wireStable j)
  ∧ (∀ c, Claim m = Some c → wireStable (ObjectReference_encode c))
  ∧ (∀ st, Status m = Some st → wireStable (PersistentVolumeStatus_encode st)).

(** A marshalled volume whose tag and selector tokens are ASCII and whose
    extra fields are stable JSON under ASCII keys, none of which is a
    metadata key up to case. *)
Definition wireSafeVolume (mv : MarshalledVolume) : Prop :=
  isASCII (Type_ mv) = true
  ∧ Forall (λ t, isASCII t = true) (Selector mv)
  ∧ ∀ k v, ExtraFields mv !! k = Some v →
           isASCII k = true ∧ (ToLower k ∉ metaKeys) ∧ wireStable v.

End RoundTripDefs.

Section RoundTripDefs2.
Context `{Collaborators}.

(** What the flat object holds at the metadata keys when it encodes [m]:
    nothing for an empty field, the encoding of the field otherwise. *)
Definition stringAt (s : string) (o : option json) : Prop :=
  o = if decide (s = "") then None else Some (JString s).

Definition mapAt (l : gmap string string) (o : option json) : Prop :=
  o = if decide (size l = 0) then None else Some (JObject (JString <$> l)).

Definition pointerAt {T} (zero : T) (dec : T → json → T * option error)
    (p : option T) (o : option json) : Prop :=
  match p with
  | None => o = None
  | Some x => ∃ j, o = Some j ∧ j ≠ JNull ∧ dec zero j = (x, None)
  end.

Definition encodesMeta (m : PersistentVolumeMeta) (obj : gmap string json) : Prop :=
  stringAt (Version m) (obj !! "version")
  ∧ stringAt (Cluster m) (obj !! "cluster")
  ∧ stringAt (Name m) (obj !! "name")
  ∧ stringAt (Namespace m) (obj !! "namespace")
  ∧ mapAt (Labels m) (obj !! "labels")
  ∧ mapAt (Annotations m) (obj !! "annotations")
  ∧ pointerAt Quantity_zero Quantity_UnmarshalJSON (Storage m) (obj !! "storage")
  ∧ pointerAt (mkAccessModes []) AccessModes_UnmarshalJSON (MetaAccessModes m)
      (obj !! "modes")
  ∧ pointerAt ObjectReference_zero ObjectReference_decode (Claim m) (obj !! "claim")
  ∧ stringAt (ReclaimPolicy m) (obj !! "reclaim")
  ∧ stringAt (StorageClass m) (obj !! "storage_class")
  ∧ stringAt (MountOptions m) (obj !! "mount_options")
  ∧ pointerAt PersistentVolumeStatus_zero PersistentVolumeStatus_decode (Status m)
      (obj !! "status").

(** The outcome of marshalling a pointer field with a [MarshalJSON] method:
    nothing for nil, the JSON value otherwise. *)
Definition marshalled {T} (marshal : T → result error json) (p : option T)
    (oj : option json) : Prop :=
  match p with
  | None => oj = None
  | Some x => ∃ j, marshal x = Ok j ∧ oj = Some j
  end.

(** The object of a metadata record, given its two marshalled pointers. *)
Definition metaObject (m : PersistentVolumeMeta) (storage modes : option json)
    : gmap string json :=
  put_struct "status" PersistentVolumeStatus_encode (Status m)
    (put_string "mount_options" (MountOptions m)
       (put_string "storage_class" (StorageClass m)
          (put_string "reclaim" (ReclaimPolicy m)
             (put_struct "claim" ObjectReference_encode (Claim m)
                (put_struct "modes" id modes
                   (put_struct "storage" id storage
                      (put_map "annotations" (Annotations m)
                         (put_map "labels" (Labels m)
                            (put_string "namespace" (Namespace m)
                               (put_string "name" (Name m)
                                  (put_string "cluster" (Cluster m)
                                     (put_string "version" (Version m) ∅)))))))))))).

End RoundTripDefs2.

(** ** Facts about [Split] and [Join] *)

Section strings_facts.
Import strings.

Lemma Split_nonempty s sep : Split s sep ≠ [].
Proof.
  destruct s as [|c s]; simpl; [done|].
  destruct (Ascii.eqb c sep); [done|].
  by destruct (Split s sep).
Qed.

Lemma Split_length_pos s sep : 0 < length (Split s sep).
Proof.
  pose proof (Split_nonempty s sep).
  destruct (Split s sep); simpl; [done | lia].
Qed.

Lemma Split_empty sep : Split "" sep = [""].
Proof. reflexivity. Qed.

Lemma Split_free t sep : free_of sep t = true → Split t sep = [t].
Proof.
  induction t as [|c t IH]; simpl; [done|].
  intros [Hc Ht]%andb_prop.
  apply negb_true_iff in Hc. rewrite Hc, (IH Ht). done.
Qed.

Lemma Split_app_sep t rest sep :
  free_of sep t = true →
  Split (t +:+ String sep rest) sep = t :: Split rest sep.
Proof.
  induction t as [|c t IH]; simpl.
  - intros _. by rewrite Ascii.eqb_refl.
  - intros [Hc Ht]%andb_prop.
    apply negb_true_iff in Hc. rewrite Hc, (IH Ht). done.
Qed.

(** Splitting undoes joining on a non-empty list of separator-free tokens. *)
Lemma Split_Join toks sep :
  toks ≠ [] →
  Forall (λ t, free_of sep t = true) toks →
  Split (Join toks (String sep "")) sep = toks.
Proof.
  induction toks as [|t toks IH]; [done|].
  intros _ Hall. apply Forall_cons in Hall as [Ht Hall].
  destruct toks as [|t' toks].
  - simpl. by apply Split_free.
  - change (Join (t :: t' :: toks) (String sep ""))
      with (t +:+ String sep (Join (t' :: toks) (String sep ""))).
    rewrite Split_app_sep by done.
    by rewrite IH.
Qed.

Lemma HasPrefix_app p s : HasPrefix (p +:+ s) p = true.
Proof.
  induction p as [|c p IH]; simpl; [done|].
  by rewrite Ascii.eqb_refl, IH.
Qed.

Lemma Contains_HasPrefix t s : HasPrefix t s = true → Contains t s = true.
Proof. intros H. destruct t; simpl; by rewrite H. Qed.

Lemma Contains_app_r pre s suf : Contains (pre +:+ s +:+ suf) s = true.
Proof.
  induction pre as [|c pre IH].
  - change ("" +:+ s +:+ suf) with (s +:+ suf).
    apply Contains_HasPrefix, HasPrefix_app.
  - change (String c pre +:+ s +:+ suf) with (String c (pre +:+ s +:+ suf)).
    simpl. rewrite IH. apply orb_true_r.
Qed.

End strings_facts.

Section AccessModesFacts.
Context `{VolumeTypes}.

Lemma insert_at_end {A} (pre : list A) (x y : A) (l : list A) i :
  length pre = i → <[i:=x]> (pre ++ y :: l) = pre ++ x :: l.
Proof. intros <-. by rewrite insert_app_r_alt, Nat.sub_diag by lia. Qed.

Lemma ToString_loop_valid ms : ∀ i pre,
  length pre = i → validModes ms →
  ToString_loop ms i (pre ++ replicate (length ms) "") = Ok (pre ++ symbols ms).
Proof.
  induction ms as [|m ms IH]; intros i pre Hi Hv; simpl.
  - done.
  - apply Forall_cons in Hv as [Hm Hv].
    assert (Hstep : ∀ sym, length (pre ++ [sym]) = S i)
      by (intros; rewrite length_app; simpl; lia).
    destruct Hm as [-> | [-> | ->]]; simpl;
      rewrite (insert_at_end pre _ "" _ i Hi);
      rewrite (cons_middle _ pre), (assoc_L (++));
      rewrite (IH (S i) _ (Hstep _) Hv);
      by rewrite <- (assoc_L (++)).
Qed.

Lemma InitFromString_loop_known s toks : ∀ i pre,
  length pre = i → Forall (λ t, is_Some (symbolMode t)) toks →
  InitFromString_loop s toks i (mkAccessModes (pre ++ replicate (length toks) ""))
  = (mkAccessModes (pre ++ parsed toks), None).
Proof.
  induction toks as [|t toks IH]; intros i pre Hi Hk; simpl.
  - done.
  - apply Forall_cons in Hk as [Ht Hk].
    assert (Hstep : ∀ m : string, length (pre ++ [m]) = S i)
      by (intros; rewrite length_app; simpl; lia).
    unfold symbolMode in *.
    repeat case_decide; simpl;
      try (rewrite (insert_at_end pre _ "" _ i Hi);
           rewrite (cons_middle _ pre), (assoc_L (++));
           rewrite (IH (S i) _ (Hstep _) Hk);
           by rewrite <- (assoc_L (++))).
    by destruct Ht.
Qed.

Lemma InitFromString_loop_unknown s good bad rest : ∀ i pre,
  length pre = i → Forall (λ t, is_Some (symbolMode t)) good →
  symbolMode bad = None →
  let a' := mkAccessModes (pre ++ parsed good ++ replicate (S (length rest)) "") in
  InitFromString_loop s (good ++ bad :: rest) i
    (mkAccessModes (pre ++ replicate (length (good ++ bad :: rest)) ""))
  = (a', Some (InvalidValueErrorf (VAccessModes a') ("couldn't parse (" +:+ s +:+ ")"))).
Proof.
  induction good as [|t good IH]; intros i pre Hi Hk Hbad; simpl.
  - unfold symbolMode in Hbad. by repeat case_decide.
  - apply Forall_cons in Hk as [Ht Hk].
    assert (Hstep : ∀ m : string, length (pre ++ [m]) = S i)
      by (intros; rewrite length_app; simpl; lia).
    unfold symbolMode in Ht |- *.
    repeat case_decide; simpl;
      try (rewrite (insert_at_end pre _ "" _ i Hi);
           rewrite (cons_middle _ pre), (assoc_L (++));
           rewrite (IH (S i) _ (Hstep _) Hk Hbad); simpl;
           by rewrite <- !(assoc_L (++))).
    by destruct Ht.
Qed.

End AccessModesFacts.

Section SplitFacts.
Import strings.

Lemma append_assoc' (a b c : string) : (a +:+ b) +:+ c = a +:+ (b +:+ c).
Proof.
  induction a as [|x a IH]; [done|].
  change (String x ((a +:+ b) +:+ c) = String x (a +:+ (b +:+ c))).
  by rewrite IH.
Qed.

(** The first token of a split is a prefix of the string. *)
Lemma Split_head_prefix s sep :
  ∃ t rest suf, Split s sep = t :: rest ∧ s = t +:+ suf.
Proof.
  induction s as [|c s (t & rest & suf & Hs & Heq)]; simpl.
  - by exists "", [], "".
  - destruct (Ascii.eqb c sep).
    + by exists "", (Split s sep), (String c s).
    + rewrite Hs. exists (String c t), rest, suf.
      split; [done | exact (f_equal (String c) Heq)].
Qed.

(** Every token of a split occurs in the string. *)
Lemma Split_elem_infix s sep tok :
  tok ∈ Split s sep → ∃ pre suf, s = pre +:+ tok +:+ suf.
Proof.
  induction s as [|c s IH]; simpl.
  - intros ->%list_elem_of_singleton. by exists "", "".
  - destruct (Ascii.eqb c sep).
    + intros [-> | Hin]%elem_of_cons.
      * by exists "", (String c s).
      * destruct (IH Hin) as (pre & suf & ->). by exists (String c pre), suf.
    + destruct (Split_head_prefix s sep) as (t & rest & suf & Hs & Heq).
      rewrite Hs in IH |- *.
      intros [-> | Hin]%elem_of_cons.
      * exists "", suf. exact (f_equal (String c) Heq).
      * destruct (IH (list_elem_of_further _ _ _ Hin)) as (pre & suf' & ->).
        by exists (String c pre), suf'.
Qed.

End SplitFacts.

(** A list with an element that fails [P] splits at its first such element. *)
Lemma first_failure {A} (P : A → Prop) `{!∀ x, Decision (P x)} (l : list A) x :
  x ∈ l → ¬ P x →
  ∃ good bad rest, l = good ++ bad :: rest ∧ Forall P good ∧ ¬ P bad.
Proof.
  induction l as [|y l IH]; [by intros ?%elem_of_nil|].
  intros Hin Hx. destruct (decide (P y)) as [Hy|Hy].
  - apply elem_of_cons in Hin as [-> | Hin]; [done|].
    destruct (IH Hin Hx) as (good & bad & rest & -> & Hg & Hb).
    exists (y :: good), bad, rest. split_and!; [done | by constructor | done].
  - by exists [], y, l.
Qed.

Section AccessModesProperties.
Context `{VolumeTypes}.

Lemma symbols_known ms :
  validModes ms → Forall (λ t, is_Some (symbolMode t)) (symbols ms).
Proof.
  intros Hv. apply Forall_fmap. eapply Forall_impl; [exact Hv|].
  intros m [-> | [-> | ->]]; by eexists.
Qed.

Lemma symbols_comma_free ms :
  validModes ms → Forall (λ t, strings.free_of "," t = true) (symbols ms).
Proof.
  intros Hv. apply Forall_fmap. eapply Forall_impl; [exact Hv|].
  by intros m [-> | [-> | ->]].
Qed.

Lemma parsed_symbols ms : validModes ms → parsed (symbols ms) = ms.
Proof.
  induction 1 as [|m ms Hm _ IH]; [done|].
  unfold parsed, symbols in *. rewrite !fmap_cons, IH.
  by destruct Hm as [-> | [-> | ->]].
Qed.

(** On a non-empty list of the three modes the two conversions are inverse:
    [ToString] yields the comma-joined symbols and [InitFromString] reads
    them back. *)
Lemma InitFromString_ToString_nonempty a ms :
  ms ≠ [] → validModes ms →
  AccessModes_ToString (Some (mkAccessModes ms)) = Ok (strings.Join (symbols ms) ",")
  ∧ AccessModes_InitFromString a (strings.Join (symbols ms) ",")
    = (mkAccessModes ms, None).
Proof.
  intros Hne Hv. split.
  - unfold AccessModes_ToString. simpl.
    case_decide as Hlen; [by destruct ms|].
    by rewrite (ToString_loop_valid ms 0 [] eq_refl Hv).
  - unfold AccessModes_InitFromString.
    rewrite (Split_Join (symbols ms) ",");
      [| by destruct ms | by apply symbols_comma_free].
    case_decide as Hlen; [by destruct ms|].
    rewrite (InitFromString_loop_known _ (symbols ms) 0 [] eq_refl (symbols_known ms Hv)).
    simpl. by rewrite parsed_symbols.
Qed.

(** C4, at the empty list.  [ToString] turns the empty list (and the nil
    receiver) into the empty string, but [InitFromString] does not turn the
    empty string back into the empty list: it fails and leaves one unparsed
    slot in [Modes]. *)
Theorem ToString_InitFromString_empty_list :
  AccessModes_ToString (Some (mkAccessModes [])) = Ok ""
  ∧ AccessModes_ToString None = Ok ""
  ∧ ∀ a, ∃ e, AccessModes_InitFromString a "" = (mkAccessModes [""], Some e)
             ∧ mkAccessModes [""] ≠ mkAccessModes [].
Proof.
  split_and!; [done | done |].
  intros a. eexists. split; [reflexivity | done].
Qed.

(** C5.  The guard [len(modes) == 0] of [InitFromString] never holds, since
    [strings.Split] returns at least one token; the empty string therefore
    reaches the loop as the single token [""], which is no symbol, and the
    call fails. *)
Theorem InitFromString_empty_string :
  (∀ s, length (strings.Split s ",") ≠ 0)
  ∧ ∀ a, AccessModes_InitFromString a ""
         = (mkAccessModes [""],
            Some (InvalidValueErrorf (VAccessModes (mkAccessModes [""]))
                    "couldn't parse ()")).
Proof.
  split; [|done].
  intros s. pose proof (Split_length_pos s ","). lia.
Qed.

Lemma append_char_inj (s t : string) c :
  s +:+ String c "" = t +:+ String c "" → s = t.
Proof.
  revert t. induction s as [|x s IH]; intros [|y t] Heq; [done| | |].
  - injection Heq as _ Heq. by destruct t.
  - injection Heq as _ Heq. by destruct s.
  - injection Heq as -> Heq. by rewrite (IH t Heq).
Qed.

Lemma parseMessage_inj s t : parseMessage s = parseMessage t → s = t.
Proof.
  unfold parseMessage. intros Heq.
  apply (String.app_inj "couldn't parse (") in Heq. by apply append_char_inj in Heq.
Qed.

(** C8, as the code has it.  When some comma-separated token of [s] is not
    one of the three symbols, [InitFromString] fails at the first such token
    [bad].  The error is an invalid-value error that carries the receiver,
    in which exactly the tokens before [bad] are parsed, and the message
    ["couldn't parse (%s)"] filled in with the original string [s].  The
    token occurs in the error only as a part of [s]: the error is built from
    the token just when the token is the whole input. *)
Theorem InitFromString_unknown_token_error a s tok :
  tok ∈ strings.Split s "," → symbolMode tok = None →
  ∃ good bad rest,
    strings.Split s "," = good ++ bad :: rest
    ∧ Forall (λ t, is_Some (symbolMode t)) good
    ∧ symbolMode bad = None
    ∧ let a' := mkAccessModes (parsed good ++ replicate (S (length rest)) "") in
      let e := InvalidValueErrorf (VAccessModes a') (parseMessage s) in
      AccessModes_InitFromString a s = (a', Some e)
      ∧ (∃ pre suf, s = pre +:+ bad +:+ suf)
      ∧ (builtFromToken e bad ↔ s = bad).
Proof.
  intros Hin Hbad.
  destruct (first_failure (λ t, is_Some (symbolMode t)) _ tok Hin)
    as (good & bad & rest & Hsplit & Hgood & Hb).
  { rewrite Hbad. by intros [? ?]. }
  assert (Hbad' : symbolMode bad = None).
  { destruct (symbolMode bad); [|done]. by destruct Hb. }
  exists good, bad, rest. split_and!; try done.
  cbv zeta. split_and!.
  - unfold AccessModes_InitFromString. rewrite Hsplit.
    case_decide as Hlen; [by destruct good|].
    by rewrite (InitFromString_loop_unknown s good bad rest 0 [] eq_refl Hgood Hbad').
  - apply (Split_elem_infix s ","). rewrite Hsplit.
    apply elem_of_app. right. apply list_elem_of_here.
  - split.
    + intros (val & msg & [= <- <-] & [Hval | Hmsg]); [done|].
      by apply parseMessage_inj.
    + intros ->. eexists _, _. split; [done|]. by right.
Qed.

End AccessModesProperties.

(** * Properties of the codecs *)

Section CodecFacts.
Context `{Collaborators}.

(** The merge loop is the union that prefers the metadata. *)
Lemma mergeInto_union (metaObj sourceObj : gmap string json) :
  mergeInto metaObj sourceObj = metaObj ∪ sourceObj.
Proof.
  unfold mergeInto.
  apply (map_fold_weak_ind (λ r m, r = m ∪ sourceObj)).
  - by rewrite (left_id_L ∅ (∪)).
  - intros i x m r _ ->. by rewrite insert_union_l.
Qed.

Lemma put_string_lookup_ne key s (obj : gmap string json) k :
  k ≠ key → put_string key s obj !! k = obj !! k.
Proof. intros Hk. unfold put_string. case_decide; [done|]. by rewrite lookup_insert_ne. Qed.

Lemma put_struct_lookup_ne {T} key (enc : T → json) p (obj : gmap string json) k :
  k ≠ key → put_struct key enc p obj !! k = obj !! k.
Proof. intros Hk. destruct p; simpl; [|done]. by rewrite lookup_insert_ne. Qed.

(** A metadata record with a non-nil [AccessModes] marshals to an object
    whose key ["modes"] holds the marshalled access modes. *)
Lemma json_Marshal_Meta_modes m a b :
  MetaAccessModes m = Some a → json_Marshal_Meta m = Ok b →
  ∃ obj j, b = JObject obj ∧ AccessModes_MarshalJSON a = Ok j ∧ obj !! "modes" = Some j.
Proof.
  intros Ha. unfold json_Marshal_Meta. rewrite Ha.
  destruct (put_marshaler "storage" _ _ _ _) as [obj|]; [|done].
  simpl. destruct (AccessModes_MarshalJSON a) as [j|]; [|done].
  intros [= <-]. eexists _, j. split_and!; [done..|].
  rewrite put_struct_lookup_ne, !put_string_lookup_ne, put_struct_lookup_ne by done.
  by rewrite lookup_insert_eq.
Qed.

(** A key whose decoder fails fatally on its value makes the struct decode
    fail, whatever the other fields do. *)
Lemma decodeFields_fatal fields (obj : gmap string json) key dec j :
  (key, dec) ∈ fields → obj !! key = Some j →
  (∀ m, ∃ m' e, dec m j = (m', FieldFatal e)) →
  ∀ m first, ∃ m' e, decodeFields fields obj m first = (m', Some e).
Proof.
  intros Hin Hj Hdec. induction fields as [|[k0 d0] fields IH]; [by apply elem_of_nil in Hin|].
  intros m first. simpl.
  apply elem_of_cons in Hin as [[= <- <-] | Hin].
  - rewrite Hj. destruct (Hdec m) as (m' & e & ->). by eexists _, _.
  - destruct (obj !! k0) as [j0|]; [|by apply IH].
    destruct (d0 m j0) as [m' [|e|e]]; [by apply IH | by apply IH | by eexists _, _].
Qed.

Lemma volumeObject_vol_type mv :
  volumeObject mv !! "vol_type" = Some (JString (Type_ mv)).
Proof.
  unfold volumeObject; cbv zeta.
  case_decide; [rewrite lookup_insert_ne by done|]; by rewrite lookup_insert_eq.
Qed.

Lemma volumeObject_extra mv k :
  k ≠ "vol_type" → k ≠ "vol_id" → volumeObject mv !! k = ExtraFields mv !! k.
Proof.
  intros Ht Hi. unfold volumeObject; cbv zeta.
  assert (Hextra : (if decide (size (ExtraFields mv) = 0) then ∅ else ExtraFields mv)
                   = ExtraFields mv).
  { case_decide as Hsz; [|done]. by apply map_size_empty_iff in Hsz. }
  rewrite Hextra. clear Hextra. case_decide; by rewrite !lookup_insert_ne.
Qed.

Lemma volumeObject_vol_id mv :
  volumeObject mv !! "vol_id"
  = if decide (0 < length (Selector mv))
    then Some (JString (strings.Join (Selector mv) ":"))
    else (ExtraFields mv !! "vol_id").
Proof.
  unfold volumeObject; cbv zeta. case_decide.
  - by rewrite lookup_insert_eq.
  - rewrite lookup_insert_ne by done. case_decide as Hsz; [|done].
    apply map_size_empty_iff in Hsz. by rewrite Hsz.
Qed.

(** The three [if] statements keep the result of the last non-nil slot. *)
Lemma selectVolume_lastSlot v :
  selectVolume v = default (None, None) (lastSlot v).
Proof. unfold selectVolume, lastSlot. by destruct (HostPath v), (AwsEBS v), (GcePD v). Qed.

End CodecFacts.

Section CodecProperties.
Context `{Collaborators}.

(** C2, as the code has it.  [MarshalJSON] checks the slots in the order
    [GcePD], [AwsEBS], [HostPath] and keeps the last non-nil one: when that
    slot marshals to [mv], the output is the object of [mv], with the tag of
    [mv] under ["vol_type"] and the extra fields of [mv] at every other key
    but ["vol_id"]. *)
Theorem MarshalJSON_last_slot v mv :
  lastSlot v = Some (Some mv, None) →
  selectVolume v = (Some mv, None)
  ∧ PersistentVolumeSource_MarshalJSON v = Ok (JObject (volumeObject mv))
  ∧ volumeObject mv !! "vol_type" = Some (JString (Type_ mv))
  ∧ ∀ k, k ≠ "vol_type" → k ≠ "vol_id" → volumeObject mv !! k = ExtraFields mv !! k.
Proof.
  intros Hlast.
  assert (Hsel : selectVolume v = (Some mv, None))
    by (by rewrite selectVolume_lastSlot, Hlast).
  split_and!; [done | | apply volumeObject_vol_type | apply volumeObject_extra].
  unfold PersistentVolumeSource_MarshalJSON. by rewrite Hsel.
Qed.

(** C3.  When the metadata and the source both marshal, [MarshalJSON]
    succeeds, and every key the metadata produces carries the metadata's
    value in the output, whatever the source produced at that key; the
    other keys carry the source's values. *)
Theorem MarshalJSON_metadata_wins v metaObj sourceObj key val :
  json_Marshal_Meta (Meta v) = Ok (JObject metaObj) →
  PersistentVolumeSource_MarshalJSON (Source v) = Ok (JObject sourceObj) →
  metaObj !! key = Some val →
  ∃ out, PersistentVolume_MarshalJSON v = Ok (JObject out)
         ∧ out !! key = Some val
         ∧ ∀ k, metaObj !! k = None → out !! k = sourceObj !! k.
Proof.
  intros Hmeta Hsrc Hkey. exists (mergeInto metaObj sourceObj).
  unfold PersistentVolume_MarshalJSON, json_Marshal_Source.
  rewrite Hmeta, Hsrc. simpl. split_and!; [done | |].
  - rewrite mergeInto_union. by apply lookup_union_Some_l.
  - intros k Hk. rewrite mergeInto_union. by apply lookup_union_r.
Qed.

(** C6, as the code has it.  When a sub-decode fails with [e], the decode
    fails with a new invalid-value-for-type error that carries the input and
    the resource as decoded so far, and whose message is a prefix naming the
    failed half followed by the text of [e]. *)
Theorem UnmarshalJSON_wraps_sub_error v data :
  (∀ source e,
     PersistentVolumeSource_UnmarshalJSON (Source v) data = (source, Some e) →
     PersistentVolume_UnmarshalJSON v data
     = (mkPV (Meta v) source,
        Some (InvalidValueForTypeErrorf (VData data)
                (VPersistentVolume (mkPV (Meta v) source))
                ("couldn't unmarshal volume source from JSON: " +:+ Error e))))
  ∧ (∀ source meta e,
       PersistentVolumeSource_UnmarshalJSON (Source v) data = (source, None) →
       json_Unmarshal_Meta (Meta v) data = (meta, Some e) →
       PersistentVolume_UnmarshalJSON v data
       = (mkPV meta source,
          Some (InvalidValueForTypeErrorf (VData data)
                  (VPersistentVolume (mkPV meta source))
                  ("couldn't unmarshal metadata from JSON: " +:+ Error e)))).
Proof.
  split.
  - intros source e Hsrc. unfold PersistentVolume_UnmarshalJSON. by rewrite Hsrc.
  - intros source meta e Hsrc Hmeta. unfold PersistentVolume_UnmarshalJSON.
    rewrite Hsrc. simpl. by rewrite Hmeta.
Qed.



(** C9.  When the tag is a registered one and the decode of its variant
    fails with [e], [Unmarshal] returns [e] and the receiver has the arm of
    that tag pointing at the struct the failed decode left behind, started
    from the zero value; the other two arms are as before. *)
Theorem Unmarshal_not_atomic v (obj : gmap string json) selector e :
  (∀ g, GcePDVolume_Unmarshal GcePDVolume_zero obj selector = (g, Some e) →
        PersistentVolumeSource_Unmarshal v obj VolumeTypeGcePD selector
        = (mkSource (Some g) (AwsEBS v) (HostPath v), Some e))
  ∧ (∀ a, AwsEBSVolume_Unmarshal AwsEBSVolume_zero obj selector = (a, Some e) →
          PersistentVolumeSource_Unmarshal v obj VolumeTypeAwsEBS selector
          = (mkSource (GcePD v) (Some a) (HostPath v), Some e))
  ∧ (∀ h, HostPathVolume_Unmarshal HostPathVolume_zero selector = (h, Some e) →
          PersistentVolumeSource_Unmarshal v obj VolumeTypeHostPath selector
          = (mkSource (GcePD v) (AwsEBS v) (Some h), Some e)).
Proof.
  pose proof VolumeType_GcePD_AwsEBS. pose proof VolumeType_GcePD_HostPath.
  pose proof VolumeType_AwsEBS_HostPath.
  unfold PersistentVolumeSource_Unmarshal.
  split_and!; intros x Hx; repeat case_decide; try congruence; by rewrite Hx.
Qed.


(** C1, at a non-nil empty access-mode list.  Encoding such a resource puts
    the empty string under ["modes"], and decoding the result fails, from
    any receiver: the round trip does not give the resource back. *)
Theorem roundtrip_fails_on_empty_modes r data v0 :
  MetaAccessModes (Meta r) = Some (mkAccessModes []) →
  PersistentVolume_MarshalJSON r = Ok data →
  (∃ out, data = JObject out ∧ out !! "modes" = Some (JString ""))
  ∧ ∃ v' e, PersistentVolume_UnmarshalJSON v0 data = (v', Some e).
Proof.
  intros Hmodes Henc. unfold PersistentVolume_MarshalJSON in Henc.
  destruct (json_Marshal_Meta (Meta r)) as [b|] eqn:Hb; [|done].
  destruct (json_Marshal_Source (Source r)) as [bb|]; [|done].
  destruct (json_Marshal_Meta_modes _ _ _ Hmodes Hb) as (metaObj & j & -> & Hj & Hlook).
  injection Hj as <-. simpl in Henc.
  destruct (json_Unmarshal_map bb) as [sourceObj|]; [|done].
  injection Henc as <-.
  assert (Hmerged : mergeInto metaObj sourceObj !! "modes" = Some (JString "")).
  { rewrite mergeInto_union. by apply lookup_union_Some_l. }
  split; [by eexists|].
  unfold PersistentVolume_UnmarshalJSON.
  destruct (PersistentVolumeSource_UnmarshalJSON _ _) as [source [e|]]; [by eexists _, _|].
  cbv beta iota zeta delta [Meta Source json_Unmarshal_Meta].
  destruct (decodeFields_fatal metaFields (mergeInto metaObj sourceObj) "modes"
              (unmarshaler_field (mkAccessModes []) AccessModes_UnmarshalJSON
                 MetaAccessModes set_AccessModes) (JString ""))
    with (m := Meta v0) (first := @None error) as (m' & e & Hdec).
  - unfold metaFields. do 7 apply list_elem_of_further. apply list_elem_of_here.
  - exact Hmerged.
  - intros m. eexists _, _. reflexivity.
  - unfold Meta in Hdec. rewrite Hdec. eexists _, _. reflexivity.
Qed.

End CodecProperties.


Section RoundTrip.
Context `{Collaborators}.

Lemma put_string_lookup key s (obj : gmap string json) k :
  put_string key s obj !! k
  = if decide (k = key) then (if decide (s = "") then obj !! k else Some (JString s))
    else obj !! k.
Proof.
  unfold put_string. repeat case_decide; subst; try done.
  - by rewrite lookup_insert_eq.
  - by rewrite lookup_insert_ne.
Qed.

Lemma put_map_lookup key m (obj : gmap string json) k :
  put_map key m obj !! k
  = if decide (k = key)
    then (if decide (size m = 0) then obj !! k else Some (JObject (JString <$> m)))
    else obj !! k.
Proof.
  unfold put_map. repeat case_decide; subst; try done.
  - by rewrite lookup_insert_eq.
  - by rewrite lookup_insert_ne.
Qed.

Lemma put_struct_lookup {T} key (enc : T → json) p (obj : gmap string json) k :
  put_struct key enc p obj !! k
  = if decide (k = key) then (match p with Some x => Some (enc x) | None => obj !! k end)
    else obj !! k.
Proof.
  unfold put_struct. destruct p; case_decide; subst; try done.
  - by rewrite lookup_insert_eq.
  - by rewrite lookup_insert_ne.
Qed.

End RoundTrip.

(** * More on the compact access-mode list *)

Section AccessModesMore.
Context `{VolumeTypes}.
Import strings.

Lemma Join_cons_char c t rest sep :
  Join (String c t :: rest) sep = String c (Join (t :: rest) sep).
Proof. by destruct rest. Qed.

(** Joining undoes splitting, for every string. *)
Lemma Join_Split s sep : Join (Split s sep) (String sep "") = s.
Proof.
  induction s as [|c s IH]; [done|]. simpl.
  destruct (Ascii.eqb_spec c sep) as [->|Hne].
  - pose proof (Split_nonempty s sep) as Hs.
    destruct (Split s sep) as [|t rest] eqn:Heq; [done|].
    change (Join ("" :: t :: rest) (String sep ""))
      with (String sep (Join (t :: rest) (String sep ""))).
    by rewrite IH.
  - pose proof (Split_nonempty s sep) as Hs.
    destruct (Split s sep) as [|t rest] eqn:Heq; [done|].
    by rewrite Join_cons_char, IH.
Qed.

Lemma symbols_parsed toks :
  Forall (λ t, is_Some (symbolMode t)) toks → symbols (parsed toks) = toks.
Proof.
  induction 1 as [|t toks Ht _ IH]; [done|].
  unfold symbols, parsed in *. rewrite !fmap_cons, IH. f_equal.
  unfold symbolMode in *. repeat case_decide; subst; try done; by destruct Ht.
Qed.

Lemma parsed_valid toks :
  Forall (λ t, is_Some (symbolMode t)) toks → validModes (parsed toks).
Proof.
  intros Hk. apply Forall_fmap. eapply Forall_impl; [exact Hk|].
  intros t Ht. unfold symbolMode in *. simpl.
  repeat case_decide; simpl; auto; by destruct Ht.
Qed.

Lemma ToString_loop_invalid good bad rest : ∀ i pre,
  length pre = i → validModes good → modeSymbol bad = None →
  ToString_loop (good ++ bad :: rest) i
    (pre ++ replicate (length (good ++ bad :: rest)) "")
  = Err (InvalidInstanceError (VString bad)).
Proof.
  induction good as [|m good IH]; intros i pre Hi Hv Hbad; simpl.
  - unfold modeSymbol in Hbad. by repeat case_decide.
  - apply Forall_cons in Hv as [Hm Hv].
    assert (Hstep : ∀ sym, length (pre ++ [sym]) = S i)
      by (intros; rewrite length_app; simpl; lia).
    destruct Hm as [-> | [-> | ->]]; simpl;
      rewrite (insert_at_end pre _ "" _ i Hi);
      rewrite (cons_middle _ pre), (assoc_L (++));
      by rewrite (IH (S i) _ (Hstep _) Hv Hbad).
Qed.

Lemma ToString_stops_at good bad rest :
  validModes good → modeSymbol bad = None →
  AccessModes_ToString (Some (mkAccessModes (good ++ bad :: rest)))
  = Err (InvalidInstanceError (VString bad)).
Proof.
  intros Hv Hbad. unfold AccessModes_ToString. cbn [Modes].
  case_decide as Hlen; [by destruct good|].
  pose proof (ToString_loop_invalid good bad rest 0 [] eq_refl Hv Hbad) as Hloop.
  rewrite app_nil_l in Hloop. by rewrite Hloop.
Qed.

(** X2.  [ToString] stops at the first mode that is none of the three
    constants and returns the invalid-instance error carrying that mode;
    the modes after it are not looked at. *)
Theorem ToString_invalid_mode good bad rest :
  validModes good → modeSymbol bad = None →
  AccessModes_ToString (Some (mkAccessModes (good ++ bad :: rest)))
  = Err (InvalidInstanceError (VString bad)).
Proof. apply ToString_stops_at. Qed.

Lemma InitFromString_cases a s :
  (Forall (λ t, is_Some (symbolMode t)) (Split s ",") →
   AccessModes_InitFromString a s = (mkAccessModes (parsed (Split s ",")), None))
  ∧ (¬ Forall (λ t, is_Some (symbolMode t)) (Split s ",") →
     ∃ a' e, AccessModes_InitFromString a s = (a', Some e)).
Proof.
  unfold AccessModes_InitFromString. split.
  - intros Hk. case_decide as Hlen.
    { pose proof (Split_length_pos s ","). lia. }
    by rewrite (InitFromString_loop_known s (Split s ",") 0 [] eq_refl Hk).
  - intros Hnk. apply not_Forall_Exists in Hnk; [|apply _].
    apply Exists_exists in Hnk as (tok & Hin & Htok).
    destruct (first_failure (λ t, is_Some (symbolMode t)) _ tok Hin Htok)
      as (good & bad & rest & Hsplit & Hgood & Hb).
    assert (Hbad : symbolMode bad = None).
    { destruct (symbolMode bad); [|done]. by destruct Hb. }
    rewrite Hsplit. case_decide as Hlen; [by destruct good|].
    rewrite (InitFromString_loop_unknown s good bad rest 0 [] eq_refl Hgood Hbad).
    by eexists _, _.
Qed.

(** X4.  [InitFromString] succeeds exactly on the strings all of whose
    comma-separated tokens are symbols; the receiver then holds the mode of
    each token, in order, and whatever it held before is gone. *)
Theorem InitFromString_all_known a s :
  (Forall (λ t, is_Some (symbolMode t)) (Split s ",") →
   AccessModes_InitFromString a s = (mkAccessModes (parsed (Split s ",")), None))
  ∧ (¬ Forall (λ t, is_Some (symbolMode t)) (Split s ",") →
     ∃ a' e, AccessModes_InitFromString a s = (a', Some e)).
Proof. apply InitFromString_cases. Qed.

(** X3.  Whenever [InitFromString] accepts [s], [ToString] of the result is
    [s] again. *)
Theorem ToString_InitFromString a s a' :
  AccessModes_InitFromString a s = (a', None) →
  AccessModes_ToString (Some a') = Ok s.
Proof.
  intros Hinit.
  destruct (decide (Forall (λ t, is_Some (symbolMode t)) (Split s ","))) as [Hk|Hnk].
  - rewrite (proj1 (InitFromString_cases a s) Hk) in Hinit.
    injection Hinit as <-. unfold AccessModes_ToString. simpl.
    case_decide as Hlen.
    { unfold parsed in Hlen. rewrite length_fmap in Hlen.
      pose proof (Split_length_pos s ","). lia. }
    rewrite (ToString_loop_valid _ 0 [] eq_refl (parsed_valid _ Hk)). simpl.
    by rewrite (symbols_parsed _ Hk), Join_Split.
  - destruct (proj2 (InitFromString_cases a s) Hnk) as (a'' & e & Heq).
    by rewrite Heq in Hinit.
Qed.

(** X1.  On a non-empty list of the three modes, [ToString] succeeds with
    the comma-joined symbols of the list, and [InitFromString] of that
    string, on any receiver, gives the list back. *)
Theorem ToString_then_InitFromString a ms :
  ms ≠ [] → validModes ms →
  ∃ str, AccessModes_ToString (Some (mkAccessModes ms)) = Ok str
         ∧ str = Join (symbols ms) ","
         ∧ AccessModes_InitFromString a str = (mkAccessModes ms, None).
Proof.
  intros Hne Hv.
  destruct (InitFromString_ToString_nonempty a ms Hne Hv) as [Hts Hinit].
  by exists (Join (symbols ms) ",").
Qed.

Lemma InitFromString_loop_length s toks : ∀ i a,
  length (Modes (InitFromString_loop s toks i a).1) = length (Modes a).
Proof.
  induction toks as [|t toks IH]; intros i a; simpl; [done|].
  repeat case_decide; try done; rewrite IH; simpl; by rewrite length_insert.
Qed.

(** X5.  Failing or not, [InitFromString] leaves the receiver with one slot
    per comma-separated token of its input, hence never with an empty
    list. *)
Theorem InitFromString_length a s :
  length (Modes (AccessModes_InitFromString a s).1) = length (Split s ",")
  ∧ Modes (AccessModes_InitFromString a s).1 ≠ [].
Proof.
  assert (Hlen : length (Modes (AccessModes_InitFromString a s).1)
                 = length (Split s ",")).
  { unfold AccessModes_InitFromString. case_decide as Hz.
    - pose proof (Split_length_pos s ","). lia.
    - rewrite InitFromString_loop_length. simpl. by rewrite length_replicate. }
  split; [done|]. intros Hnil. rewrite Hnil in Hlen.
  pose proof (Split_length_pos s ","). simpl in Hlen. lia.
Qed.

End AccessModesMore.

Section AccessModesJSON.
Context `{Collaborators}.

(** X6.  [AccessModes.UnmarshalJSON] accepts a JSON string only: any other
    value but [null] is refused with an invalid-value-for-type error that
    carries the data and the receiver, and the receiver is not touched. *)
Theorem AccessModes_UnmarshalJSON_not_string a data :
  (∀ s, data ≠ JString s) → data ≠ JNull →
  AccessModes_UnmarshalJSON a data
  = (a, Some (InvalidValueForTypeErrorf (VData data) (VAccessModes a)
                ("couldn't unmarshal from JSON: "
                 +:+ Error (UnmarshalTypeError (jsonKind data) "string")))).
Proof. intros Hs Hn. destruct data; try done. by destruct (Hs s). Qed.

(** X7.  A non-empty list of the three modes marshals to one JSON string,
    the comma-joined symbols, and unmarshalling that string gives the list
    back. *)
Theorem AccessModes_JSON_roundtrip a ms :
  ms ≠ [] → validModes ms →
  AccessModes_MarshalJSON (mkAccessModes ms)
  = Ok (JString (strings.Join (symbols ms) ","))
  ∧ AccessModes_UnmarshalJSON a (JString (strings.Join (symbols ms) ","))
    = (mkAccessModes ms, None).
Proof.
  intros Hne Hv.
  destruct (InitFromString_ToString_nonempty a ms Hne Hv) as [Hts Hinit].
  unfold AccessModes_MarshalJSON. by rewrite Hts.
Qed.

End AccessModesJSON.

Section RoundTripSteps.
Context `{Collaborators}.

Lemma decodeFields_string key get set rest (obj : gmap string json) m0 s m1 first :
  stringAt s (obj !! key) → set "" m0 = m0 → set s m0 = m1 →
  decodeFields ((key, string_field get set) :: rest) obj m0 first
  = decodeFields rest obj m1 first.
Proof.
  unfold stringAt. intros Hk Hz <-. simpl. rewrite Hk.
  case_decide as Hs; [by rewrite Hs, Hz|]. unfold string_field. simpl. done.
Qed.

Lemma entry_errors_none (l : gmap string string) :
  omap (λ kv : string * json, entry_error kv.2) (map_to_list (JString <$> l)) = [].
Proof.
  rewrite map_to_list_fmap. induction (map_to_list l) as [|[k v] kvs IH]; [done|].
  simpl. exact IH.
Qed.

Lemma decodeFields_map key get set rest (obj : gmap string json) m0 l m1 first :
  mapAt l (obj !! key) → get m0 = ∅ → set ∅ m0 = m0 → set l m0 = m1 →
  decodeFields ((key, map_field get set) :: rest) obj m0 first
  = decodeFields rest obj m1 first.
Proof.
  unfold mapAt. intros Hk Hget Hz <-. simpl. rewrite Hk.
  case_decide as Hl.
  - apply map_size_empty_iff in Hl. by rewrite Hl, Hz.
  - unfold map_field, decode_string_map. rewrite Hget, entry_errors_none. simpl.
    rewrite <- map_fmap_compose, (right_id_L ∅ (∪)).
    replace (entry_string ∘ JString) with (@id string) by done.
    by rewrite map_fmap_id.
Qed.

Lemma decode_pointer_nonnull {T} (zero : T) dec j x :
  j ≠ JNull → dec zero j = (x, None) →
  decode_pointer zero dec None j = (Some x, None).
Proof. intros Hj Hdec. destruct j; try done; simpl; by rewrite Hdec. Qed.

Lemma decodeFields_unmarshaler {T} key (zero : T) dec get set rest
    (obj : gmap string json) m0 p m1 first :
  pointerAt zero dec p (obj !! key) → get m0 = None → set None m0 = m0 →
  set p m0 = m1 →
  decodeFields ((key, unmarshaler_field zero dec get set) :: rest) obj m0 first
  = decodeFields rest obj m1 first.
Proof.
  intros Hk Hget Hz <-. simpl. destruct p as [x|]; simpl in Hk.
  - destruct Hk as (j & -> & Hj & Hdec). unfold unmarshaler_field.
    by rewrite Hget, (decode_pointer_nonnull zero dec j x Hj Hdec).
  - by rewrite Hk, Hz.
Qed.

Lemma decodeFields_struct {T} key (zero : T) dec get set rest
    (obj : gmap string json) m0 p m1 first :
  pointerAt zero dec p (obj !! key) → get m0 = None → set None m0 = m0 →
  set p m0 = m1 →
  decodeFields ((key, struct_field zero dec get set) :: rest) obj m0 first
  = decodeFields rest obj m1 first.
Proof.
  intros Hk Hget Hz <-. simpl. destruct p as [x|]; simpl in Hk.
  - destruct Hk as (j & -> & Hj & Hdec). unfold struct_field.
    by rewrite Hget, (decode_pointer_nonnull zero dec j x Hj Hdec).
  - by rewrite Hk, Hz.
Qed.

(** The struct decode reads a metadata record back from any flat object
    that encodes it. *)
Lemma json_Unmarshal_Meta_encodes m (obj : gmap string json) :
  encodesMeta m obj →
  json_Unmarshal_Meta PersistentVolumeMeta_zero (JObject obj) = (m, None).
Proof.
  destruct m as [fver fclu fnam fns flab fann fsto fmod fcla frec fsc fmo fst].
  unfold encodesMeta.
  cbn [Version Cluster Name Namespace Labels Annotations Storage MetaAccessModes
       Claim ReclaimPolicy StorageClass MountOptions Status].
  intros (Hver & Hclu & Hnam & Hns & Hlab & Hann & Hsto & Hmod & Hcla & Hrec & Hsc
          & Hmo & Hst).
  unfold json_Unmarshal_Meta, metaFields, PersistentVolumeMeta_zero.
  rewrite (decodeFields_string _ _ _ _ _ _ fver
             (mkMeta fver "" "" "" ∅ ∅ None None None "" "" "" None) None Hver)
    by reflexivity.
  rewrite (decodeFields_string _ _ _ _ _ _ fclu
             (mkMeta fver fclu "" "" ∅ ∅ None None None "" "" "" None) None Hclu)
    by reflexivity.
  rewrite (decodeFields_string _ _ _ _ _ _ fnam
             (mkMeta fver fclu fnam "" ∅ ∅ None None None "" "" "" None) None Hnam)
    by reflexivity.
  rewrite (decodeFields_string _ _ _ _ _ _ fns
             (mkMeta fver fclu fnam fns ∅ ∅ None None None "" "" "" None) None Hns)
    by reflexivity.
  rewrite (decodeFields_map _ _ _ _ _ _ flab
             (mkMeta fver fclu fnam fns flab ∅ None None None "" "" "" None) None Hlab)
    by reflexivity.
  rewrite (decodeFields_map _ _ _ _ _ _ fann
             (mkMeta fver fclu fnam fns flab fann None None None "" "" "" None) None Hann)
    by reflexivity.
  rewrite (decodeFields_unmarshaler _ _ _ _ _ _ _ _ fsto
             (mkMeta fver fclu fnam fns flab fann fsto None None "" "" "" None) None Hsto)
    by reflexivity.
  rewrite (decodeFields_unmarshaler _ _ _ _ _ _ _ _ fmod
             (mkMeta fver fclu fnam fns flab fann fsto fmod None "" "" "" None) None Hmod)
    by reflexivity.
  rewrite (decodeFields_struct _ _ _ _ _ _ _ _ fcla
             (mkMeta fver fclu fnam fns flab fann fsto fmod fcla "" "" "" None) None Hcla)
    by reflexivity.
  rewrite (decodeFields_string _ _ _ _ _ _ frec
             (mkMeta fver fclu fnam fns flab fann fsto fmod fcla frec "" "" None) None Hrec)
    by reflexivity.
  rewrite (decodeFields_string _ _ _ _ _ _ fsc
             (mkMeta fver fclu fnam fns flab fann fsto fmod fcla frec fsc "" None) None Hsc)
    by reflexivity.
  rewrite (decodeFields_string _ _ _ _ _ _ fmo
             (mkMeta fver fclu fnam fns flab fann fsto fmod fcla frec fsc fmo None) None Hmo)
    by reflexivity.
  rewrite (decodeFields_struct _ _ _ _ _ _ _ _ fst
             (mkMeta fver fclu fnam fns flab fann fsto fmod fcla frec fsc fmo fst) None Hst)
    by reflexivity.
  reflexivity.
Qed.

End RoundTripSteps.

Section RoundTripEncode.
Context `{Collaborators}.

Lemma put_string_lookup_eq key s (obj : gmap string json) :
  put_string key s obj !! key = if decide (s = "") then obj !! key else Some (JString s).
Proof. unfold put_string. case_decide; [done|]. by rewrite lookup_insert_eq. Qed.

Lemma put_map_lookup_ne key m (obj : gmap string json) k :
  k ≠ key → put_map key m obj !! k = obj !! k.
Proof. intros Hk. unfold put_map. case_decide; [done|]. by rewrite lookup_insert_ne. Qed.

Lemma put_map_lookup_eq key m (obj : gmap string json) :
  put_map key m obj !! key
  = if decide (size m = 0) then obj !! key else Some (JObject (JString <$> m)).
Proof. unfold put_map. case_decide; [done|]. by rewrite lookup_insert_eq. Qed.

Lemma put_struct_lookup_eq {T} key (enc : T → json) p (obj : gmap string json) :
  put_struct key enc p obj !! key
  = match p with Some x => Some (enc x) | None => obj !! key end.
Proof. destruct p; simpl; [|done]. by rewrite lookup_insert_eq. Qed.

Lemma put_marshaler_ok {T} key typ (marshal : T → result error json) p oj
    (obj : gmap string json) :
  marshalled marshal p oj →
  put_marshaler key typ marshal p obj = Ok (put_struct key id oj obj).
Proof. destruct p; simpl; [intros (j & -> & ->) | intros ->]; done. Qed.

Lemma json_Marshal_Meta_object m storage modes :
  marshalled Quantity_MarshalJSON (Storage m) storage →
  marshalled AccessModes_MarshalJSON (MetaAccessModes m) modes →
  json_Marshal_Meta m = Ok (JObject (metaObject m storage modes)).
Proof.
  intros Hsto Hmod. unfold json_Marshal_Meta; cbv zeta.
  rewrite (put_marshaler_ok _ _ _ _ _ _ Hsto).
  by rewrite (put_marshaler_ok _ _ _ _ _ _ Hmod).
Qed.

Lemma validMeta_marshalled m :
  validMeta m →
  ∃ storage modes,
    marshalled Quantity_MarshalJSON (Storage m) storage
    ∧ marshalled AccessModes_MarshalJSON (MetaAccessModes m) modes.
Proof.
  intros (Hmod & Hsto & _).
  assert (∃ storage, marshalled Quantity_MarshalJSON (Storage m) storage) as [storage ?].
  { destruct (Storage m) as [q|]; simpl in *; [|by exists None].
    destruct Hsto as (j & ? & _). exists (Some j). by exists j. }
  assert (∃ modes, marshalled AccessModes_MarshalJSON (MetaAccessModes m) modes)
    as [modes ?].
  { destruct (MetaAccessModes m) as [[ms]|]; simpl in *; [|by exists None].
    destruct Hmod as [Hne Hv].
    destruct (InitFromString_ToString_nonempty (mkAccessModes []) ms Hne Hv) as [Hts _].
    eexists (Some _), _. split; [|done].
    unfold AccessModes_MarshalJSON. by rewrite Hts. }
  by exists storage, modes.
Qed.

Lemma metaKeys_eq :
  metaKeys
  = ["version"; "cluster"; "name"; "namespace"; "labels"; "annotations"; "storage";
     "modes"; "claim"; "reclaim"; "storage_class"; "mount_options"; "status"].
Proof. reflexivity. Qed.

Ltac put_lookup :=
  repeat first
    [ rewrite put_string_lookup_ne by done
    | rewrite put_map_lookup_ne by done
    | rewrite put_struct_lookup_ne by done
    | rewrite put_string_lookup_eq
    | rewrite put_map_lookup_eq
    | rewrite put_struct_lookup_eq
    | rewrite lookup_empty ].

Lemma metaObject_other m storage modes k :
  k ∉ metaKeys → metaObject m storage modes !! k = None.
Proof.
  rewrite metaKeys_eq, !not_elem_of_cons.
  intros (? & ? & ? & ? & ? & ? & ? & ? & ? & ? & ? & ? & ? & _).
  unfold metaObject. by put_lookup.
Qed.

Lemma metaObject_encodes m storage modes :
  validMeta m →
  marshalled Quantity_MarshalJSON (Storage m) storage →
  marshalled AccessModes_MarshalJSON (MetaAccessModes m) modes →
  encodesMeta m (metaObject m storage modes).
Proof.
  intros (Hmod & Hsto & Hcla & Hsta) Msto Mmod.
  unfold encodesMeta, metaObject, stringAt, mapAt.
  split_and!; put_lookup; try done.
  - destruct (Storage m) as [q|]; simpl in *; [|by rewrite Msto].
    destruct Msto as (j & Hj & ->). destruct Hsto as (j' & Hj' & ? & ?).
    exists j. rewrite Hj in Hj'. by injection Hj' as <-.
  - destruct (MetaAccessModes m) as [[ms]|]; simpl in *; [|by rewrite Mmod].
    destruct Mmod as (j & Hj & ->). destruct Hmod as [Hne Hv].
    destruct (InitFromString_ToString_nonempty (mkAccessModes []) ms Hne Hv)
      as [Hts Hinit].
    unfold AccessModes_MarshalJSON in Hj. rewrite Hts in Hj. injection Hj as <-.
    eexists. split_and!; [done | done | exact Hinit].
  - destruct (Claim m) as [c|]; simpl in *; [|done].
    destruct Hcla as (j & [= <-] & ? & ?). by eexists.
  - destruct (Status m) as [s|]; simpl in *; [|done].
    destruct Hsta as (j & [= <-] & ? & ?). by eexists.
Qed.

End RoundTripEncode.

Section RoundTripResource.
Context `{Collaborators}.

Lemma tag_keys_not_meta : ("vol_type" ∉ metaKeys) ∧ ("vol_id" ∉ metaKeys).
Proof.
  rewrite metaKeys_eq.
  split; intros Hin%list_elem_of_In; simpl in Hin;
    repeat (destruct Hin as [Hin|Hin]; [discriminate|]); done.
Qed.

Lemma metaKeys_not_tag k : k ∈ metaKeys → k ≠ "vol_type" ∧ k ≠ "vol_id".
Proof.
  rewrite metaKeys_eq, !elem_of_cons, elem_of_nil.
  intros Hk. split; intros ->; repeat (destruct Hk as [Hk|Hk]; [discriminate|]); done.
Qed.

(** In the merged object a metadata key holds what the metadata put there,
    and every other key what the volume put there. *)
Lemma merged_meta_key (metaObj : gmap string json) mv k :
  fitsFlatObject mv → k ∈ metaKeys →
  mergeInto metaObj (volumeObject mv) !! k = metaObj !! k.
Proof.
  intros (_ & _ & Hextra) Hk. destruct (metaKeys_not_tag k Hk).
  rewrite mergeInto_union. apply lookup_union_l.
  rewrite volumeObject_extra by done. by apply Hextra.
Qed.

Lemma encodesMeta_agree m (obj obj' : gmap string json) :
  (∀ k, k ∈ metaKeys → obj' !! k = obj !! k) → encodesMeta m obj → encodesMeta m obj'.
Proof.
  intros Hagree. unfold encodesMeta.
  rewrite !Hagree by (rewrite metaKeys_eq; apply list_elem_of_In; simpl; tauto).
  done.
Qed.

(** The selector written under ["vol_id"] is the selector read back. *)
Lemma read_selector_volumeObject data (obj : gmap string json) mv :
  Forall (λ t, strings.free_of ":" t = true) (Selector mv) →
  ExtraFields mv !! "vol_id" = None →
  obj !! "vol_id" = volumeObject mv !! "vol_id" →
  read_selector data obj = Ok (Selector mv).
Proof.
  intros Hfree Hextra Hid. unfold read_selector.
  rewrite Hid, volumeObject_vol_id. case_decide as Hlen.
  - rewrite (Split_Join (Selector mv) ":"); [done | | done].
    destruct (Selector mv); simpl in *; [lia | done].
  - rewrite Hextra. destruct (Selector mv); simpl in *; [done | lia].
Qed.

(** A source with one arm encodes to the object of its volume and is read
    back from any flat object that holds that volume's tag and selector. *)
Lemma Source_roundtrip (obj : gmap string json) mv src :
  oneArm obj mv src → fitsFlatObject mv →
  obj !! "vol_type" = volumeObject mv !! "vol_type" →
  obj !! "vol_id" = volumeObject mv !! "vol_id" →
  PersistentVolumeSource_MarshalJSON src = Ok (JObject (volumeObject mv))
  ∧ PersistentVolumeSource_UnmarshalJSON PersistentVolumeSource_zero (JObject obj)
    = (src, None).
Proof.
  intros Harm (Hfree & Hextra & _) Htype Hid.
  pose proof VolumeType_GcePD_AwsEBS. pose proof VolumeType_GcePD_HostPath.
  pose proof VolumeType_AwsEBS_HostPath.
  rewrite volumeObject_vol_type in Htype.
  assert (Hdec : ∀ v,
    PersistentVolumeSource_UnmarshalJSON v (JObject obj)
    = PersistentVolumeSource_Unmarshal v obj (Type_ mv) (Selector mv)).
  { intros v. unfold PersistentVolumeSource_UnmarshalJSON, GetStringEntry. simpl.
    by rewrite (read_selector_volumeObject _ obj mv Hfree Hextra Hid), Htype. }
  rewrite Hdec. unfold PersistentVolumeSource_MarshalJSON, selectVolume,
    PersistentVolumeSource_Unmarshal.
  destruct Harm as [g Hm Ht Hu | a Hm Ht Hu | h Hm Ht Hu]; simpl;
    rewrite Hm, Ht; repeat case_decide; try congruence; by rewrite Hu.
Qed.

(** X12.  The round trip of a resource.  When the metadata is valid, the volume
    [mv] of the one populated arm fits the flat object, both stay where the
    model and [encoding/json] agree (ASCII strings, no numbers in the values
    that pass through the generic map, no extra field on a metadata key up
    to case), and that arm reads itself back from every flat object that
    agrees with the object of [mv] outside the metadata keys, then
    [MarshalJSON] succeeds and [UnmarshalJSON] of its output, from the zero
    resource, gives the resource back with no error (a nil map and an empty
    map being the same value here). *)
Theorem UnmarshalJSON_MarshalJSON r mv :
  validMeta (Meta r) → wireSafeMeta (Meta r) →
  fitsFlatObject mv → wireSafeVolume mv →
  (∀ obj : gmap string json,
     (∀ k, k ∉ metaKeys → obj !! k = volumeObject mv !! k) →
     oneArm obj mv (Source r)) →
  ∃ data, PersistentVolume_MarshalJSON r = Ok data
          ∧ PersistentVolume_UnmarshalJSON PersistentVolume_zero data = (r, None).
Proof.
  intros Hvalid _ Hfits _ Harm. destruct r as [m src]. simpl in *.
  destruct (validMeta_marshalled m Hvalid) as (storage & modes & Hsto & Hmod).
  set (metaObj := metaObject m storage modes).
  set (obj := mergeInto metaObj (volumeObject mv)).
  assert (Hother : ∀ k, k ∉ metaKeys → obj !! k = volumeObject mv !! k).
  { intros k Hk. unfold obj. rewrite mergeInto_union.
    apply lookup_union_r. by apply metaObject_other. }
  assert (Henc : encodesMeta m obj).
  { apply (encodesMeta_agree m metaObj); [|by apply metaObject_encodes].
    intros k Hk. by apply merged_meta_key. }
  destruct (Source_roundtrip obj mv src (Harm obj Hother) Hfits) as [Hsrc Hdec].
  { apply Hother, tag_keys_not_meta. }
  { apply Hother, tag_keys_not_meta. }
  exists (JObject obj). split.
  - unfold PersistentVolume_MarshalJSON, json_Marshal_Source. simpl.
    by rewrite (json_Marshal_Meta_object m storage modes Hsto Hmod), Hsrc.
  - unfold PersistentVolume_UnmarshalJSON.
    cbn [Meta Source PersistentVolume_zero]. rewrite Hdec.
    by rewrite (json_Unmarshal_Meta_encodes m obj Henc).
Qed.

End RoundTripResource.

Section SourceMore.
Context `{Collaborators}.

Lemma Source_MarshalJSON_cases v :
  PersistentVolumeSource_MarshalJSON v
  = match lastSlot v with
    | Some (_, Some err) => Err err
    | Some (Some mv, None) => Ok (JObject (volumeObject mv))
    | Some (None, None) | None =>
        Err (InvalidInstanceErrorf (VSource v) "empty volume definition")
    end.
Proof.
  unfold PersistentVolumeSource_MarshalJSON. rewrite selectVolume_lastSlot.
  by destruct (lastSlot v) as [[[mv|] [e|]]|].
Qed.

(** X8.  The result of [PersistentVolumeSource.MarshalJSON] is decided by
    the last non-nil slot alone.  If its [Marshal] returned an error, that
    error is returned, with or without a volume; if no slot is set, or the
    slot returned neither, the error is "empty volume definition"; otherwise
    the output is the object of its volume.  What an earlier slot returned,
    error included, is dropped. *)
Theorem Source_MarshalJSON_by_last_slot v :
  PersistentVolumeSource_MarshalJSON v
  = match lastSlot v with
    | Some (_, Some err) => Err err
    | Some (Some mv, None) => Ok (JObject (volumeObject mv))
    | Some (None, None) | None =>
        Err (InvalidInstanceErrorf (VSource v) "empty volume definition")
    end.
Proof. apply Source_MarshalJSON_cases. Qed.

(** X9.  The key ["vol_id"] of the encoded source is the colon-joined
    selector when the selector is not empty; with an empty selector the
    encoder writes no ["vol_id"], so the key is there only if the volume's
    own extra fields have it. *)
Theorem Source_MarshalJSON_vol_id v mv :
  lastSlot v = Some (Some mv, None) →
  ∃ out, PersistentVolumeSource_MarshalJSON v = Ok (JObject out)
         ∧ out !! "vol_id"
           = match Selector mv with
             | [] => ExtraFields mv !! "vol_id"
             | _ :: _ => Some (JString (strings.Join (Selector mv) ":"))
             end.
Proof.
  intros Hlast. exists (volumeObject mv).
  rewrite Source_MarshalJSON_cases, Hlast. split; [done|].
  rewrite volumeObject_vol_id.
  destruct (Selector mv) as [|t sel];
    [by rewrite decide_False by (simpl; lia) | by rewrite decide_True by (simpl; lia)].
Qed.

(** X10.  Data that is neither an object nor [null] is refused by the source
    decode with the "expected dictionary" error carrying the data; the
    receiver is not touched and no variant is consulted. *)
Theorem Source_UnmarshalJSON_not_object v data :
  (∀ fields, data ≠ JObject fields) → data ≠ JNull →
  PersistentVolumeSource_UnmarshalJSON v data
  = (v, Some (InvalidValueErrorf (VData data)
                "expected dictionary for persistent volume")).
Proof. intros Ho Hn. destruct data; try done. by destruct (Ho fields). Qed.

(** X11.  [Unmarshal] writes the arm of its tag and leaves the others alone,
    so a receiver that is reused keeps its old arms.  After a successful
    decode of a GcePD volume into a receiver whose [HostPath] arm is set,
    both arms are set, and [MarshalJSON] of the result still encodes the
    old host path, not the volume just decoded. *)
Theorem Unmarshal_stale_arm v (obj : gmap string json) selector g h mvh :
  HostPath v = Some h →
  GcePDVolume_Unmarshal GcePDVolume_zero obj selector = (g, None) →
  HostPathVolume_Marshal h = (Some mvh, None) →
  ∃ v', PersistentVolumeSource_Unmarshal v obj VolumeTypeGcePD selector = (v', None)
        ∧ GcePD v' = Some g ∧ AwsEBS v' = AwsEBS v ∧ HostPath v' = Some h
        ∧ PersistentVolumeSource_MarshalJSON v' = Ok (JObject (volumeObject mvh)).
Proof.
  intros Hh Hg Hm. eexists. split.
  - unfold PersistentVolumeSource_Unmarshal. rewrite decide_True by done.
    by rewrite Hg.
  - split_and!; [done | done | done |].
    rewrite Source_MarshalJSON_cases. unfold lastSlot. simpl.
    by rewrite Hh, Hm.
Qed.

End SourceMore.

Section ResourceMore.
Context `{Collaborators}.

(** A metadata record that marshals at all marshals to the object of its
    fields. *)
Lemma json_Marshal_Meta_shape m b :
  json_Marshal_Meta m = Ok b → ∃ storage modes, b = JObject (metaObject m storage modes).
Proof.
  unfold json_Marshal_Meta; cbv zeta. intros Hb.
  assert (Hput : ∀ T key typ (marshal : T → result error json) p
                   (obj obj' : gmap string json),
            put_marshaler key typ marshal p obj = Ok obj' →
            ∃ oj, obj' = put_struct key id oj obj).
  { intros T key typ marshal [x|] obj obj'; simpl.
    - destruct (marshal x) as [j|]; [|done]. intros [= <-]. by exists (Some j).
    - intros [= <-]. by exists None. }
  destruct (put_marshaler "storage" _ _ _ _) as [o1|] eqn:H1; [|done].
  destruct (put_marshaler "modes" _ _ _ _) as [o2|] eqn:H2; [|done].
  apply Hput in H1 as [storage ->]. apply Hput in H2 as [modes ->].
  injection Hb as <-. by exists storage, modes.
Qed.

(** X13.  Whenever the resource encodes, the output holds the type tag of the
    selected volume under ["vol_type"] and that volume's ["vol_id"]: the
    metadata, merged last, has no field on either key and cannot replace
    them. *)
Theorem MarshalJSON_emits_tag v data :
  PersistentVolume_MarshalJSON v = Ok data →
  ∃ out mv, data = JObject out
            ∧ lastSlot (Source v) = Some (Some mv, None)
            ∧ out !! "vol_type" = Some (JString (Type_ mv))
            ∧ out !! "vol_id" = volumeObject mv !! "vol_id".
Proof.
  unfold PersistentVolume_MarshalJSON, json_Marshal_Source.
  destruct (json_Marshal_Meta (Meta v)) as [b|] eqn:Hb; [|done].
  apply json_Marshal_Meta_shape in Hb as (storage & modes & ->).
  rewrite Source_MarshalJSON_cases.
  destruct (lastSlot (Source v)) as [[[mv|] [e|]]|]; try done.
  simpl. intros [= <-]. eexists _, mv. split_and!; [done | done | |].
  - rewrite mergeInto_union, lookup_union_r, volumeObject_vol_type; [done|].
    apply metaObject_other, tag_keys_not_meta.
  - rewrite mergeInto_union. apply lookup_union_r.
    apply metaObject_other, tag_keys_not_meta.
Qed.

(** X14.  A resource whose access modes hold a mode that is none of the three
    constants does not encode (here with no storage quantity, whose own
    marshalling comes first): the error is the invalid-instance error of the
    resource, its message quoting the error of the metadata, which wraps the
    invalid-instance error of the offending mode.  The source is not
    consulted. *)
Theorem MarshalJSON_invalid_mode v good bad rest :
  Storage (Meta v) = None →
  MetaAccessModes (Meta v) = Some (mkAccessModes (good ++ bad :: rest)) →
  validModes good → modeSymbol bad = None →
  ∃ typ, PersistentVolume_MarshalJSON v
         = Err (InvalidInstanceErrorf (VPersistentVolume v)
                  ("couldn't marshal metadata to JSON: "
                   +:+ Error (MarshalerError typ (InvalidInstanceError (VString bad))))).
Proof.
  intros Hsto Hmod Hv Hbad. eexists.
  unfold PersistentVolume_MarshalJSON, json_Marshal_Meta; cbv zeta.
  rewrite Hsto, Hmod. cbn [put_marshaler]. unfold AccessModes_MarshalJSON.
  by rewrite (ToString_stops_at good bad rest Hv Hbad).
Qed.

(** X15.  A resource whose metadata marshals but whose source has no arm set
    does not encode: the error is the "empty volume definition" error of the
    source, as [json.Marshal] hands it on. *)
Theorem MarshalJSON_empty_union v b :
  json_Marshal_Meta (Meta v) = Ok b →
  GcePD (Source v) = None → AwsEBS (Source v) = None → HostPath (Source v) = None →
  PersistentVolume_MarshalJSON v
  = Err (MarshalerError "types.PersistentVolumeSource"
           (InvalidInstanceErrorf (VSource (Source v)) "empty volume definition")).
Proof.
  intros Hb Hg Ha Hh. unfold PersistentVolume_MarshalJSON, json_Marshal_Source.
  rewrite Hb, Source_MarshalJSON_cases. unfold lastSlot.
  by rewrite Hg, Ha, Hh.
Qed.

End ResourceMore.

(** * The theorems on the sample registry *)

Section OnTheSample.
Import Sample.

(** C8 as stated fails: on ["ro,bogus"] the unparsed token is ["bogus"],
    but the error is built from the receiver and from the whole input, not
    from the token; its message holds ["bogus"] no more than it holds the
    parsed token ["ro"] or the stretch ["o,b"]. *)
Lemma InitFromString_token_counterexample :
  AccessModes_InitFromString (mkAccessModes []) "ro,bogus"
  = (mkAccessModes [ReadOnlyMany; ""],
     Some (InvalidValueErrorf (VAccessModes (mkAccessModes [ReadOnlyMany; ""]))
             (parseMessage "ro,bogus")))
  ∧ ¬ builtFromToken
        (InvalidValueErrorf (VAccessModes (mkAccessModes [ReadOnlyMany; ""]))
           (parseMessage "ro,bogus")) "bogus"
  ∧ strings.Contains (parseMessage "ro,bogus") "bogus" = true
  ∧ strings.Contains (parseMessage "ro,bogus") "ro" = true
  ∧ strings.Contains (parseMessage "ro,bogus") "o,b" = true.
Proof.
  split_and!; [reflexivity | | reflexivity..].
  intros (val & msg & [= <- <-] & [Hval | Hmsg]); discriminate.
Qed.

(** The instance of C8 given by the spec: ["ro,bogus"] fails at ["bogus"],
    after ["ro"] has been parsed, with the whole input in the message. *)
Lemma InitFromString_unknown_token_error_witness :
  ("bogus" ∈ strings.Split "ro,bogus" "," ∧ symbolMode "bogus" = None)
  ∧ ∃ good bad rest,
      strings.Split "ro,bogus" "," = good ++ bad :: rest
      ∧ Forall (λ t, is_Some (symbolMode t)) good
      ∧ symbolMode bad = None
      ∧ let a' := mkAccessModes (parsed good ++ replicate (S (length rest)) "") in
        let e := InvalidValueErrorf (VAccessModes a') (parseMessage "ro,bogus") in
        AccessModes_InitFromString (mkAccessModes []) "ro,bogus" = (a', Some e)
        ∧ (∃ pre suf, "ro,bogus" = pre +:+ bad +:+ suf)
        ∧ (builtFromToken e bad ↔ "ro,bogus" = bad).
Proof.
  assert (Hin : "bogus" ∈ strings.Split "ro,bogus" ",").
  { apply list_elem_of_In. vm_compute. right. left. reflexivity. }
  split; [split; [exact Hin | reflexivity]|].
  exact (InitFromString_unknown_token_error (mkAccessModes []) "ro,bogus" "bogus"
           Hin eq_refl).
Defined.

(** C2 as stated fails: with [GcePD] and [HostPath] both set, the first
    non-nil slot is [GcePD], whose volume has the tag ["gce_pd"], but the
    output carries the tag and the selector of [HostPath]. *)
Lemma MarshalJSON_first_slot_counterexample :
  GcePD two_arms = Some (mkGce "disk")
  ∧ GcePDVolume_Marshal (mkGce "disk") = (Some (mkMarshalled "gce_pd" ["disk"] ∅), None)
  ∧ ∃ out, PersistentVolumeSource_MarshalJSON two_arms = Ok (JObject out)
           ∧ out !! "vol_type" = Some (JString "hostpath")
           ∧ out !! "vol_id" = Some (JString "/data")
           ∧ out !! "vol_type" ≠ Some (JString "gce_pd").
Proof.
  split_and!; [reflexivity..|].
  eexists. split_and!; [reflexivity | reflexivity | reflexivity | discriminate].
Qed.

Lemma MarshalJSON_last_slot_witness :
  lastSlot two_arms = Some (Some (mkMarshalled "hostpath" ["/data"] ∅), None)
  ∧ PersistentVolumeSource_MarshalJSON two_arms
    = Ok (JObject (volumeObject (mkMarshalled "hostpath" ["/data"] ∅))).
Proof.
  split; [reflexivity|].
  exact (proj1 (proj2 (MarshalJSON_last_slot two_arms
                         (mkMarshalled "hostpath" ["/data"] ∅) eq_refl))).
Defined.

(** The instance of C3 given by the spec: the metadata name ["pv1"] and a
    variant extra field ["name"] with another value. *)
Lemma MarshalJSON_metadata_wins_witness :
  (json_Marshal_Meta (Meta pv_named) = Ok (JObject {["name" := JString "pv1"]})
   ∧ PersistentVolumeSource_MarshalJSON (Source pv_named)
     = Ok (JObject (volumeObject
                      (mkMarshalled "aws_ebs" ["vol-1"] {["name" := JString "scratch"]})))
   ∧ volumeObject (mkMarshalled "aws_ebs" ["vol-1"] {["name" := JString "scratch"]})
     !! "name" = Some (JString "scratch"))
  ∧ ∃ out, PersistentVolume_MarshalJSON pv_named = Ok (JObject out)
           ∧ out !! "name" = Some (JString "pv1")
           ∧ ∀ k, ({["name" := JString "pv1"]} : gmap string json) !! k = None →
                  out !! k
                  = volumeObject
                      (mkMarshalled "aws_ebs" ["vol-1"] {["name" := JString "scratch"]})
                    !! k.
Proof.
  split; [split_and!; reflexivity|].
  exact (MarshalJSON_metadata_wins pv_named {["name" := JString "pv1"]} _
           "name" (JString "pv1") eq_refl eq_refl eq_refl).
Defined.

(** C6 as stated fails: on an unknown tag the source decode fails with the
    unsupported-type error, and on a bad access-mode list the metadata
    decode fails with the parse error; in both cases the error of the
    resource decode is another error, which only quotes the text of the
    first. *)
Lemma UnmarshalJSON_sub_error_counterexample :
  (PersistentVolumeSource_UnmarshalJSON PersistentVolumeSource_zero (JObject obj_unknown_tag)).2
  = Some (InvalidValueErrorf (VString "nfs") "unsupported volume type (nfs)")
  ∧ (PersistentVolume_UnmarshalJSON PersistentVolume_zero (JObject obj_unknown_tag)).2
    = Some (InvalidValueForTypeErrorf (VData (JObject obj_unknown_tag))
              (VPersistentVolume PersistentVolume_zero)
              "couldn't unmarshal volume source from JSON: unsupported volume type (nfs)")
  ∧ (PersistentVolume_UnmarshalJSON PersistentVolume_zero (JObject obj_unknown_tag)).2
    ≠ Some (InvalidValueErrorf (VString "nfs") "unsupported volume type (nfs)")
  ∧ (json_Unmarshal_Meta PersistentVolumeMeta_zero (JObject obj_bad_modes)).2
    = Some (InvalidValueErrorf (VAccessModes (mkAccessModes [ReadOnlyMany; ""]))
              "couldn't parse (ro,bogus)")
  ∧ (PersistentVolume_UnmarshalJSON PersistentVolume_zero (JObject obj_bad_modes)).2
    ≠ Some (InvalidValueErrorf (VAccessModes (mkAccessModes [ReadOnlyMany; ""]))
              "couldn't parse (ro,bogus)").
Proof.
  split_and!; [by vm_compute | by vm_compute | by vm_compute | by vm_compute |].
  vm_compute. discriminate.
Qed.

Lemma UnmarshalJSON_wraps_sub_error_witness :
  (PersistentVolumeSource_UnmarshalJSON PersistentVolumeSource_zero (JObject obj_unknown_tag)
   = (PersistentVolumeSource_zero,
      Some (InvalidValueErrorf (VString "nfs") "unsupported volume type (nfs)"))
   ∧ PersistentVolume_UnmarshalJSON PersistentVolume_zero (JObject obj_unknown_tag)
     = (PersistentVolume_zero,
        Some (InvalidValueForTypeErrorf (VData (JObject obj_unknown_tag))
                (VPersistentVolume PersistentVolume_zero)
                ("couldn't unmarshal volume source from JSON: "
                 +:+ "unsupported volume type (nfs)"))))
  ∧ (PersistentVolumeSource_UnmarshalJSON PersistentVolumeSource_zero (JObject obj_bad_modes)
     = (mkSource None None (Some (mkHostPath "/data")), None)
     ∧ json_Unmarshal_Meta PersistentVolumeMeta_zero (JObject obj_bad_modes)
       = (meta "" (Some (mkAccessModes [ReadOnlyMany; ""])),
          Some (InvalidValueErrorf (VAccessModes (mkAccessModes [ReadOnlyMany; ""]))
                  "couldn't parse (ro,bogus)"))
     ∧ PersistentVolume_UnmarshalJSON PersistentVolume_zero (JObject obj_bad_modes)
       = (mkPV (meta "" (Some (mkAccessModes [ReadOnlyMany; ""])))
               (mkSource None None (Some (mkHostPath "/data"))),
          Some (InvalidValueForTypeErrorf (VData (JObject obj_bad_modes))
                  (VPersistentVolume
                     (mkPV (meta "" (Some (mkAccessModes [ReadOnlyMany; ""])))
                           (mkSource None None (Some (mkHostPath "/data")))))
                  ("couldn't unmarshal metadata from JSON: "
                   +:+ "couldn't parse (ro,bogus)")))).
Proof.
  split; (split; [reflexivity|]).
  - exact (proj1 (UnmarshalJSON_wraps_sub_error PersistentVolume_zero
                    (JObject obj_unknown_tag)) _ _ eq_refl).
  - split; [reflexivity|].
    exact (proj2 (UnmarshalJSON_wraps_sub_error PersistentVolume_zero
                    (JObject obj_bad_modes)) _ _ _ eq_refl eq_refl).
Defined.



(** An instance of C9: the EBS decode takes the volume id from the selector
    and then fails on the extra field; the receiver, empty before, has its
    [AwsEBS] arm set to the half-filled volume. *)
Lemma Unmarshal_not_atomic_witness :
  AwsEBSVolume_Unmarshal AwsEBSVolume_zero obj_bad_name ["vol-1"]
  = (mkAws "vol-1" "",
     Some (InvalidValueErrorf (VObject obj_bad_name) "expected string for key name"))
  ∧ PersistentVolumeSource_Unmarshal PersistentVolumeSource_zero obj_bad_name
      VolumeTypeAwsEBS ["vol-1"]
    = (mkSource None (Some (mkAws "vol-1" "")) None,
       Some (InvalidValueErrorf (VObject obj_bad_name) "expected string for key name")).
Proof.
  split; [reflexivity|].
  exact (proj1 (proj2 (Unmarshal_not_atomic PersistentVolumeSource_zero obj_bad_name
                         ["vol-1"] _)) _ eq_refl).
Defined.


(** An instance of C1: a resource with the [HostPath] arm alone and a
    non-nil empty access-mode list encodes, and the decode of the result,
    from the zero resource, fails. *)
Lemma roundtrip_fails_on_empty_modes_witness :
  (MetaAccessModes (Meta pv_empty_modes) = Some (mkAccessModes [])
   ∧ PersistentVolume_MarshalJSON pv_empty_modes
     = Ok (JObject (<["modes" := JString ""]>
                      (<["name" := JString "pv1"]>
                         (<["vol_id" := JString "/data"]>
                            {["vol_type" := JString "hostpath"]})))))
  ∧ (∃ out, JObject (<["modes" := JString ""]>
                       (<["name" := JString "pv1"]>
                          (<["vol_id" := JString "/data"]>
                             {["vol_type" := JString "hostpath"]}))) = JObject out
            ∧ out !! "modes" = Some (JString ""))
  ∧ ∃ v' e, PersistentVolume_UnmarshalJSON PersistentVolume_zero
              (JObject (<["modes" := JString ""]>
                          (<["name" := JString "pv1"]>
                             (<["vol_id" := JString "/data"]>
                                {["vol_type" := JString "hostpath"]}))))
            = (v', Some e).
Proof.
  assert (Henc : PersistentVolume_MarshalJSON pv_empty_modes
                 = Ok (JObject (<["modes" := JString ""]>
                                  (<["name" := JString "pv1"]>
                                     (<["vol_id" := JString "/data"]>
                                        {["vol_type" := JString "hostpath"]})))))
    by (vm_compute; reflexivity).
  split; [split; [reflexivity | exact Henc]|].
  exact (roundtrip_fails_on_empty_modes pv_empty_modes _ PersistentVolume_zero
           eq_refl Henc).
Defined.

(** The decode of C1's instance, evaluated: the error is the parse error of
    the empty string, wrapped by the resource decode. *)
Lemma roundtrip_empty_modes_evaluated :
  (PersistentVolume_UnmarshalJSON PersistentVolume_zero
     (JObject (<["modes" := JString ""]>
                 (<["name" := JString "pv1"]>
                    (<["vol_id" := JString "/data"]>
                       {["vol_type" := JString "hostpath"]}))))).2
  = Some (InvalidValueForTypeErrorf
            (VData (JObject (<["modes" := JString ""]>
                               (<["name" := JString "pv1"]>
                                  (<["vol_id" := JString "/data"]>
                                     {["vol_type" := JString "hostpath"]})))))
            (VPersistentVolume
               (mkPV (meta "pv1" (Some (mkAccessModes [""])))
                     (mkSource None None (Some (mkHostPath "/data")))))
            "couldn't unmarshal metadata from JSON: couldn't parse ()").
Proof. vm_compute. reflexivity. Qed.

(** ** The further properties on the sample registry *)

Ltac valid_modes :=
  repeat first
    [ apply List.Forall_nil
    | apply List.Forall_cons;
      [ first [left; reflexivity | right; left; reflexivity
              | right; right; reflexivity] | ] ].

Lemma ToString_then_InitFromString_witness :
  ([ReadOnlyMany; ReadWriteOnce] ≠ [] ∧ validModes [ReadOnlyMany; ReadWriteOnce])
  ∧ ∃ str,
      AccessModes_ToString (Some (mkAccessModes [ReadOnlyMany; ReadWriteOnce])) = Ok str
      ∧ str = strings.Join (symbols [ReadOnlyMany; ReadWriteOnce]) ","
      ∧ AccessModes_InitFromString (mkAccessModes [ReadWriteMany]) str
        = (mkAccessModes [ReadOnlyMany; ReadWriteOnce], None).
Proof.
  assert (Hne : [ReadOnlyMany; ReadWriteOnce] ≠ []) by discriminate.
  assert (Hv : validModes [ReadOnlyMany; ReadWriteOnce]).
  { unfold validModes. valid_modes. }
  split; [split; [exact Hne | exact Hv]|].
  exact (ToString_then_InitFromString (mkAccessModes [ReadWriteMany])
           [ReadOnlyMany; ReadWriteOnce] Hne Hv).
Defined.

Lemma ToString_invalid_mode_witness :
  (validModes [ReadOnlyMany] ∧ modeSymbol "ReadWriteNever" = None)
  ∧ AccessModes_ToString
      (Some (mkAccessModes ([ReadOnlyMany] ++ "ReadWriteNever" :: [ReadWriteMany])))
    = Err (InvalidInstanceError (VString "ReadWriteNever")).
Proof.
  assert (Hv : validModes [ReadOnlyMany]) by (unfold validModes; valid_modes).
  split; [split; [exact Hv | reflexivity]|].
  exact (ToString_invalid_mode [ReadOnlyMany] "ReadWriteNever" [ReadWriteMany]
           Hv eq_refl).
Defined.

Lemma InitFromString_all_known_witness :
  (Forall (λ t, is_Some (symbolMode t)) (strings.Split "rw,ro" ",")
   ∧ AccessModes_InitFromString (mkAccessModes []) "rw,ro"
     = (mkAccessModes (parsed (strings.Split "rw,ro" ",")), None))
  ∧ (¬ Forall (λ t, is_Some (symbolMode t)) (strings.Split "ro,,rw" ",")
     ∧ ∃ a' e, AccessModes_InitFromString (mkAccessModes []) "ro,,rw" = (a', Some e)).
Proof.
  assert (Hk : Forall (λ t, is_Some (symbolMode t)) (strings.Split "rw,ro" ",")).
  { repeat constructor; by eexists. }
  assert (Hnk : ¬ Forall (λ t, is_Some (symbolMode t)) (strings.Split "ro,,rw" ",")).
  { intros Hall. apply Forall_cons in Hall as [_ Hall].
    apply Forall_cons in Hall as [[m Hm] _]. discriminate Hm. }
  split; (split; [assumption|]).
  - exact (proj1 (InitFromString_all_known (mkAccessModes []) "rw,ro") Hk).
  - exact (proj2 (InitFromString_all_known (mkAccessModes []) "ro,,rw") Hnk).
Defined.

Lemma ToString_InitFromString_witness :
  AccessModes_InitFromString (mkAccessModes []) "rw,ro"
  = (mkAccessModes [ReadWriteMany; ReadOnlyMany], None)
  ∧ AccessModes_ToString (Some (mkAccessModes [ReadWriteMany; ReadOnlyMany]))
    = Ok "rw,ro".
Proof.
  split; [reflexivity|].
  exact (ToString_InitFromString (mkAccessModes []) "rw,ro"
           (mkAccessModes [ReadWriteMany; ReadOnlyMany]) eq_refl).
Defined.

Lemma AccessModes_UnmarshalJSON_not_string_witness :
  ((∀ s, JArray [JString "ro"] ≠ JString s) ∧ JArray [JString "ro"] ≠ JNull)
  ∧ AccessModes_UnmarshalJSON (mkAccessModes [ReadWriteMany]) (JArray [JString "ro"])
    = (mkAccessModes [ReadWriteMany],
       Some (InvalidValueForTypeErrorf (VData (JArray [JString "ro"]))
               (VAccessModes (mkAccessModes [ReadWriteMany]))
               ("couldn't unmarshal from JSON: "
                +:+ Error (UnmarshalTypeError (jsonKind (JArray [JString "ro"]))
                             "string")))).
Proof.
  assert (Hs : ∀ s, JArray [JString "ro"] ≠ JString s) by (intros s; discriminate).
  assert (Hn : JArray [JString "ro"] ≠ JNull) by discriminate.
  split; [split; [exact Hs | exact Hn]|].
  exact (AccessModes_UnmarshalJSON_not_string (mkAccessModes [ReadWriteMany])
           (JArray [JString "ro"]) Hs Hn).
Defined.

Lemma AccessModes_JSON_roundtrip_witness :
  ([ReadWriteMany] ≠ [] ∧ validModes [ReadWriteMany])
  ∧ AccessModes_MarshalJSON (mkAccessModes [ReadWriteMany]) = Ok (JString "rw")
  ∧ AccessModes_UnmarshalJSON (mkAccessModes []) (JString "rw")
    = (mkAccessModes [ReadWriteMany], None).
Proof.
  assert (Hne : [ReadWriteMany] ≠ []) by discriminate.
  assert (Hv : validModes [ReadWriteMany]).
  { unfold validModes. valid_modes. }
  split; [split; [exact Hne | exact Hv]|].
  exact (AccessModes_JSON_roundtrip (mkAccessModes []) [ReadWriteMany] Hne Hv).
Defined.

Lemma Source_MarshalJSON_vol_id_witness :
  lastSlot two_arms = Some (Some (mkMarshalled "hostpath" ["/data"] ∅), None)
  ∧ ∃ out, PersistentVolumeSource_MarshalJSON two_arms = Ok (JObject out)
           ∧ out !! "vol_id" = Some (JString "/data").
Proof.
  split; [reflexivity|].
  exact (Source_MarshalJSON_vol_id two_arms (mkMarshalled "hostpath" ["/data"] ∅)
           eq_refl).
Defined.

Lemma Source_UnmarshalJSON_not_object_witness :
  ((∀ fields, JString "hostpath" ≠ JObject fields) ∧ JString "hostpath" ≠ JNull)
  ∧ PersistentVolumeSource_UnmarshalJSON two_arms (JString "hostpath")
    = (two_arms,
       Some (InvalidValueErrorf (VData (JString "hostpath"))
               "expected dictionary for persistent volume")).
Proof.
  assert (Ho : ∀ fields, JString "hostpath" ≠ JObject fields)
    by (intros f; discriminate).
  assert (Hn : JString "hostpath" ≠ JNull) by discriminate.
  split; [split; [exact Ho | exact Hn]|].
  exact (Source_UnmarshalJSON_not_object two_arms (JString "hostpath") Ho Hn).
Defined.

Lemma Unmarshal_stale_arm_witness :
  (HostPath (mkSource None None (Some (mkHostPath "/data"))) = Some (mkHostPath "/data")
   ∧ GcePDVolume_Unmarshal GcePDVolume_zero ∅ ["disk"] = (mkGce "disk", None)
   ∧ HostPathVolume_Marshal (mkHostPath "/data")
     = (Some (mkMarshalled "hostpath" ["/data"] ∅), None))
  ∧ ∃ v', PersistentVolumeSource_Unmarshal
            (mkSource None None (Some (mkHostPath "/data"))) ∅ VolumeTypeGcePD ["disk"]
          = (v', None)
          ∧ GcePD v' = Some (mkGce "disk")
          ∧ AwsEBS v' = None
          ∧ HostPath v' = Some (mkHostPath "/data")
          ∧ PersistentVolumeSource_MarshalJSON v'
            = Ok (JObject (volumeObject (mkMarshalled "hostpath" ["/data"] ∅))).
Proof.
  split; [split_and!; reflexivity|].
  exact (Unmarshal_stale_arm (mkSource None None (Some (mkHostPath "/data"))) ∅
           ["disk"] (mkGce "disk") (mkHostPath "/data")
           (mkMarshalled "hostpath" ["/data"] ∅) eq_refl eq_refl eq_refl).
Defined.

Lemma UnmarshalJSON_MarshalJSON_witness :
  (validMeta (Meta pv_scenario)
   ∧ wireSafeMeta (Meta pv_scenario)
   ∧ fitsFlatObject (mkMarshalled "hostpath" ["/data"] ∅)
   ∧ wireSafeVolume (mkMarshalled "hostpath" ["/data"] ∅)
   ∧ ∀ obj : gmap string json,
       (∀ k, k ∉ metaKeys →
             obj !! k = volumeObject (mkMarshalled "hostpath" ["/data"] ∅) !! k) →
       oneArm obj (mkMarshalled "hostpath" ["/data"] ∅) (Source pv_scenario))
  ∧ ∃ data, PersistentVolume_MarshalJSON pv_scenario = Ok data
            ∧ PersistentVolume_UnmarshalJSON PersistentVolume_zero data
              = (pv_scenario, None).
Proof.
  assert (Hvalid : validMeta (Meta pv_scenario)).
  { split_and!; simpl; try exact I. split; [discriminate|].
    unfold validModes. valid_modes. }
  assert (Hsafe : wireSafeMeta (Meta pv_scenario)).
  { split_and!; try reflexivity.
    - intros k v Hk. change ((∅ : gmap string string) !! k = Some v) in Hk.
      by rewrite lookup_empty in Hk.
    - intros k v Hk. change ((∅ : gmap string string) !! k = Some v) in Hk.
      by rewrite lookup_empty in Hk.
    - intros q j Hq. discriminate Hq.
    - intros c Hc. discriminate Hc.
    - intros st Hst. discriminate Hst. }
  assert (Hfits : fitsFlatObject (mkMarshalled "hostpath" ["/data"] ∅)).
  { split_and!; simpl; [repeat constructor | apply lookup_empty |].
    intros k _. apply lookup_empty. }
  assert (Hvol : wireSafeVolume (mkMarshalled "hostpath" ["/data"] ∅)).
  { split_and!; simpl; [reflexivity | repeat constructor |].
    intros k v Hk. by rewrite lookup_empty in Hk. }
  assert (Harm : ∀ obj : gmap string json,
            (∀ k, k ∉ metaKeys →
                  obj !! k = volumeObject (mkMarshalled "hostpath" ["/data"] ∅) !! k) →
            oneArm obj (mkMarshalled "hostpath" ["/data"] ∅) (Source pv_scenario)).
  { intros obj _.
    exact (oneArm_HostPath obj (mkMarshalled "hostpath" ["/data"] ∅)
             (mkHostPath "/data" : HostPathVolume) eq_refl eq_refl eq_refl). }
  split; [split_and!; assumption|].
  exact (UnmarshalJSON_MarshalJSON pv_scenario (mkMarshalled "hostpath" ["/data"] ∅)
           Hvalid Hsafe Hfits Hvol Harm).
Defined.

Lemma MarshalJSON_emits_tag_witness :
  PersistentVolume_MarshalJSON pv_named
  = Ok (JObject (<["name" := JString "pv1"]>
                   (<["vol_id" := JString "vol-1"]>
                      {["vol_type" := JString "aws_ebs"]})))
  ∧ ∃ out mv,
      JObject (<["name" := JString "pv1"]>
                 (<["vol_id" := JString "vol-1"]>
                    {["vol_type" := JString "aws_ebs"]})) = JObject out
      ∧ lastSlot (Source pv_named) = Some (Some mv, None)
      ∧ out !! "vol_type" = Some (JString (Type_ mv))
      ∧ out !! "vol_id" = volumeObject mv !! "vol_id".
Proof.
  assert (Henc : PersistentVolume_MarshalJSON pv_named
                 = Ok (JObject (<["name" := JString "pv1"]>
                                  (<["vol_id" := JString "vol-1"]>
                                     {["vol_type" := JString "aws_ebs"]}))))
    by (vm_compute; reflexivity).
  split; [exact Henc|].
  exact (MarshalJSON_emits_tag pv_named _ Henc).
Defined.

Lemma MarshalJSON_invalid_mode_witness :
  (Storage (Meta pv_bad_mode) = None
   ∧ MetaAccessModes (Meta pv_bad_mode)
     = Some (mkAccessModes ([ReadOnlyMany] ++ "ReadWriteNever" :: []))
   ∧ validModes [ReadOnlyMany] ∧ modeSymbol "ReadWriteNever" = None)
  ∧ ∃ typ, PersistentVolume_MarshalJSON pv_bad_mode
           = Err (InvalidInstanceErrorf (VPersistentVolume pv_bad_mode)
                    ("couldn't marshal metadata to JSON: "
                     +:+ Error (MarshalerError typ
                                  (InvalidInstanceError (VString "ReadWriteNever"))))).
Proof.
  assert (Hv : validModes [ReadOnlyMany]) by (unfold validModes; valid_modes).
  split; [split_and!; [reflexivity | reflexivity | exact Hv | reflexivity]|].
  exact (MarshalJSON_invalid_mode pv_bad_mode [ReadOnlyMany] "ReadWriteNever" []
           eq_refl eq_refl Hv eq_refl).
Defined.

Lemma MarshalJSON_empty_union_witness :
  (json_Marshal_Meta (Meta PersistentVolume_zero) = Ok (JObject ∅)
   ∧ GcePD (Source PersistentVolume_zero) = None
   ∧ AwsEBS (Source PersistentVolume_zero) = None
   ∧ HostPath (Source PersistentVolume_zero) = None)
  ∧ PersistentVolume_MarshalJSON PersistentVolume_zero
    = Err (MarshalerError "types.PersistentVolumeSource"
             (InvalidInstanceErrorf (VSource (Source PersistentVolume_zero))
                "empty volume definition")).
Proof.
  split; [split_and!; reflexivity|].
  exact (MarshalJSON_empty_union PersistentVolume_zero (JObject ∅)
           eq_refl eq_refl eq_refl eq_refl).
Defined.


End OnTheSample.
